(** * Submission ranking and leaderboard of the coding-challenge backend

    A shallow embedding of [src/database.py]: the [submissions] table
    created by [init_db], the conditional upsert of [save_submission] and
    the leaderboard query and reduction of [get_leaderboard_data]. *)

From Stdlib Require Import ZArith Lia.
From stdpp Require Import base decidable option list gmap sets strings sorting.

Local Open Scope string_scope.
Local Open Scope list_scope.
Local Open Scope stdpp_scope.

(** ** The [submissions] table *)

(** One row of [submissions], a field per column of the CREATE TABLE
    statement.  [sub_id] is the column [id UUID PRIMARY KEY]; a
    [TIMESTAMP] is counted in microseconds, the resolution shared by
    PostgreSQL and Python's [datetime].  The column [error_details] is
    TEXT holding [json.dumps] of a list: the model keeps the list that
    text encodes. *)
Record Row := mkRow {
  sub_id : string;
  user_id : string;
  problem_id : string;
  score : Z;
  replay_result : string;
  timestamp : Z;
  error_details : list string
}.

Global Instance Row_eq_dec : EqDecision Row.
Proof. solve_decision. Defined.

(** The table, in heap order. *)
Abbreviation Table := (list Row).

(** The columns of the constraint [UNIQUE (user_id, problem_id)]. *)
Definition key (r : Row) : string * string := (user_id r, problem_id r).

(** The table constraints of [init_db]. *)
Definition unique_user_problem (t : Table) : Prop := NoDup (key <$> t).
Definition primary_key (t : Table) : Prop := NoDup (sub_id <$> t).

(** The row stored for a (user, problem) pair, if there is one. *)
Definition stored (k : string * string) (t : Table) : option Row :=
  snd <$> list_find (λ r, key r = k) t.

(** ** [save_submission] *)

(** The dict [submission_entry]; [error_details] is the one key read with
    [.get] and may be absent.  [submission_id] is taken as the UUID it
    spells and [timestamp] as a [datetime]; the strings and the score are
    Python's, of any length and size, a character of the model standing
    for a character of the string. *)
Record SubmissionEntry := mkEntry {
  submission_id : string;
  entry_user_id : string;
  entry_problem_id : string;
  entry_score : Z;
  entry_replay_result : string;
  entry_timestamp : Z;
  entry_error_details : option (list string)
}.

(** The row proposed for insertion, [EXCLUDED] in the statement: the seven
    parameters bound to the VALUES list. *)
Definition excluded (submission_entry : SubmissionEntry) : Row :=
  {| sub_id := submission_id submission_entry;
     user_id := entry_user_id submission_entry;
     problem_id := entry_problem_id submission_entry;
     score := entry_score submission_entry;
     replay_result := entry_replay_result submission_entry;
     timestamp := entry_timestamp submission_entry;
     error_details := default [] (entry_error_details submission_entry) |}.

(** [WHERE EXCLUDED.score > submissions.score OR (EXCLUDED.score =
    submissions.score AND EXCLUDED.timestamp < submissions.timestamp)] *)
Definition where_clause (new old : Row) : bool :=
  (score old <? score new)%Z
  || ((score new =? score old)%Z && (timestamp new <? timestamp old)%Z).

(** [DO UPDATE SET score = EXCLUDED.score, replay_result =
    EXCLUDED.replay_result, timestamp = EXCLUDED.timestamp, error_details =
    EXCLUDED.error_details]: the columns [id], [user_id] and [problem_id]
    are not in the SET list and keep the stored values. *)
Definition do_update_set (new old : Row) : Row :=
  {| sub_id := sub_id old;
     user_id := user_id old;
     problem_id := problem_id old;
     score := score new;
     replay_result := replay_result new;
     timestamp := timestamp new;
     error_details := error_details new |}.

(** [ON CONFLICT (user_id, problem_id)]: the stored row that conflicts with
    the proposed one is updated when the WHERE clause holds and left as it
    is otherwise.  The result is [None] when no row conflicts, and else the
    number of rows affected with the new table. *)
Fixpoint on_conflict (new : Row) (t : Table) : option (nat * Table) :=
  match t with
  | [] => None
  | old :: t' =>
      if decide (key old = key new) then
        Some (if where_clause new old
              then (1, do_update_set new old :: t')
              else (0, old :: t'))
      else prod_map id (cons old) <$> on_conflict new t'
  end.

(** What [cur.execute] raises: the [ValueError] of psycopg2 for a string
    parameter that holds the character NUL, which it cannot quote; its
    [DataError] for a value that the server cannot store in its column
    (value too long for type character varying(n), integer out of range);
    and the violation of a unique constraint. *)
Inductive DbError :=
  | ValueError
  | DataError
  | UniqueViolation (constraint : string).

(** Whether a string holds the character NUL. *)
Fixpoint has_nul (s : string) : bool :=
  match s with
  | EmptyString => false
  | String c rest => Ascii.eqb c Ascii.zero || has_nul rest
  end.

(** Whether a string is made of spaces only. *)
Fixpoint only_spaces (s : string) : bool :=
  match s with
  | EmptyString => true
  | String c rest => Ascii.eqb c Ascii.Space && only_spaces rest
  end.

(** A string assigned to a column [VARCHAR(n)], which counts characters:
    up to [n] characters it is stored as it is; a longer one is an error,
    unless all that exceeds the first [n] characters is spaces, and then
    PostgreSQL stores those [n] characters. *)
Definition varchar (n : nat) (s : string) : option string :=
  if decide (String.length s ≤ n)%nat then Some s
  else if only_spaces (String.substring n (String.length s - n) s)
       then Some (String.substring 0 n s)
       else None.

(** A number assigned to a column [INTEGER], of 32 bits. *)
Definition integer (z : Z) : option Z :=
  if decide (-2147483648 ≤ z ≤ 2147483647)%Z then Some z else None.

(** The row of the VALUES list at the types of the columns of
    [submissions]: [user_id VARCHAR(50)], [problem_id VARCHAR(100)],
    [score INTEGER], [replay_result VARCHAR(50)].  psycopg2 quotes the
    parameters before the server sees any of them. *)
Definition submission_values (new : Row) : DbError + Row :=
  if has_nul (user_id new) || has_nul (problem_id new) || has_nul (replay_result new)
  then inl ValueError
  else
    match varchar 50 (user_id new), varchar 100 (problem_id new),
          integer (score new), varchar 50 (replay_result new) with
    | Some user, Some problem, Some points, Some result =>
        inr {| sub_id := sub_id new;
               user_id := user;
               problem_id := problem;
               score := points;
               replay_result := result;
               timestamp := timestamp new;
               error_details := error_details new |}
    | _, _, _, _ => inl DataError
    end.

(** The outcome of [cur.execute]: the cursor's row count and the table of
    the open transaction, or an exception. *)
Inductive Executed :=
  | RowCount (n : nat) (t : Table)
  | Raised (e : DbError).

(** INSERT ... ON CONFLICT for a row that has the types of the columns.
    The arbiter constraint is looked at first; with no conflict there the
    row is inserted, which the primary key refuses when its [id] is
    already in the table. *)
Definition insert_on_conflict (new : Row) (t : Table) : Executed :=
  match on_conflict new t with
  | Some (n, t') => RowCount n t'
  | None =>
      if decide (sub_id new ∈ (sub_id <$> t))
      then Raised (UniqueViolation "submissions_pkey")
      else RowCount 1 (t ++ [new])
  end.

(** The statement of [save_submission] with its parameters: a value that
    does not fit its column is an error before any row is looked at. *)
Definition execute_insert (new : Row) (t : Table) : Executed :=
  match submission_values new with
  | inl e => Raised e
  | inr new => insert_on_conflict new t
  end.

(** The dict returned by [save_submission]: [{"success": True}] or
    [{"success": False, "error": str(e)}]. *)
Inductive SaveResult :=
  | Success
  | Failure (error : DbError).

(** [save_submission], once [get_db_connection] has returned: after the
    statement the transaction is committed; after an exception it is
    rolled back, which leaves the table as it was. *)
Definition save_submission (submission_entry : SubmissionEntry) (db : Table)
  : SaveResult * Table :=
  match execute_insert (excluded submission_entry) db with
  | RowCount _ db' => (Success, db')
  | Raised e => (Failure e, db)
  end.

(** A run of [save_submission] calls, one after another. *)
Definition save_all (entries : list SubmissionEntry) (db : Table) : Table :=
  foldl (λ db e, (save_submission e db).2) db entries.

(** A row whose values fit the columns as they are: no NUL character,
    [user_id] and [replay_result] of at most 50 characters, [problem_id]
    of at most 100, a score of 32 bits. *)
Definition fits_columns (r : Row) : Prop :=
  has_nul (user_id r) = false
  ∧ has_nul (problem_id r) = false
  ∧ has_nul (replay_result r) = false
  ∧ (String.length (user_id r) ≤ 50)%nat
  ∧ (String.length (problem_id r) ≤ 100)%nat
  ∧ (-2147483648 ≤ score r ≤ 2147483647)%Z
  ∧ (String.length (replay_result r) ≤ 50)%nat.

(** ** [get_leaderboard_data] *)

(** A row of the cursor ([RealDictRow]): the six columns of the SELECT
    list [id, user_id, problem_id, score, replay_result, timestamp]. *)
Record QueryRow := mkQueryRow {
  q_id : string;
  q_user_id : string;
  q_problem_id : string;
  q_score : Z;
  q_replay_result : string;
  q_timestamp : Z
}.

Global Instance QueryRow_eq_dec : EqDecision QueryRow.
Proof. solve_decision. Defined.

Definition select_list (r : Row) : QueryRow :=
  {| q_id := sub_id r;
     q_user_id := user_id r;
     q_problem_id := problem_id r;
     q_score := score r;
     q_replay_result := replay_result r;
     q_timestamp := timestamp r |}.

(** [ORDER BY score DESC, timestamp ASC] on the pair (score, timestamp):
    [a] may stand before [b]. *)
Definition score_desc_timestamp_asc (a b : Z * Z) : Prop :=
  (b.1 < a.1)%Z ∨ (a.1 = b.1 ∧ (a.2 ≤ b.2)%Z).

Global Instance score_desc_timestamp_asc_dec : RelDecision score_desc_timestamp_asc.
Proof. intros a b. unfold score_desc_timestamp_asc. apply _. Defined.

(** [ROW_NUMBER() OVER (PARTITION BY user_id, problem_id ORDER BY score
    DESC, timestamp ASC)] of the row [r] at heap position [i]: one more
    than the number of rows of its partition placed before it.  Rows that
    tie are numbered in heap order here; the engine may number them in any
    order. *)
Definition row_number (t : Table) (i : nat) (r : Row) : nat :=
  S (length (filter
       (λ jr : nat * Row,
          key jr.2 = key r
          ∧ score_desc_timestamp_asc (score jr.2, timestamp jr.2) (score r, timestamp r)
          ∧ (¬ score_desc_timestamp_asc (score r, timestamp r) (score jr.2, timestamp jr.2)
             ∨ jr.1 < i))
       (imap pair t))).

(** The subquery [t]: every row of [submissions] with its [rn]. *)
Definition subquery (t : Table) : list (Row * nat) :=
  imap (λ i r, (r, row_number t i r)) t.

(** [SELECT ... FROM (...) as t WHERE t.rn = 1], before ordering. *)
Definition where_rn_1 (t : Table) : list QueryRow :=
  (select_list ∘ fst) <$> filter (λ x : Row * nat, x.2 = 1) (subquery t).

(** The outer [ORDER BY score DESC, timestamp ASC]. *)
Definition order_by (a b : QueryRow) : Prop :=
  score_desc_timestamp_asc (q_score a, q_timestamp a) (q_score b, q_timestamp b).

Global Instance order_by_dec : RelDecision order_by.
Proof. intros a b. unfold order_by. apply _. Defined.

Global Instance order_by_refl : Reflexive order_by.
Proof. intros a. unfold order_by, score_desc_timestamp_asc. cbn. lia. Qed.

Global Instance order_by_trans : Transitive order_by.
Proof. intros a b c. unfold order_by, score_desc_timestamp_asc. cbn. lia. Qed.

Global Instance order_by_total : Total order_by.
Proof. intros a b. unfold order_by, score_desc_timestamp_asc. cbn. lia. Qed.

(** What [cur.fetchall()] may return: the selected rows in an order that
    respects the ORDER BY clause.  SQL leaves the order of rows that tie on
    (score, timestamp) to the engine. *)
Definition query_result (t : Table) (rows : list QueryRow) : Prop :=
  rows ≡ₚ where_rn_1 t ∧ Sorted order_by rows.

(** One such answer, computed with a merge sort. *)
Definition fetchall (t : Table) : list QueryRow :=
  merge_sort order_by (where_rn_1 t).

(** The values held by the dicts of the leaderboard. *)
Inductive Value :=
  | Str (s : string)
  | Int (n : Z)
  | Datetime (t : Z).

Global Instance Value_eq_dec : EqDecision Value.
Proof. solve_decision. Defined.

Global Instance Str_inj : Inj (=) (=) Str.
Proof. by intros ?? [=]. Qed.

(** [dict(entry)]: a key per column of the cursor's row. *)
Definition dict (entry : QueryRow) : gmap string Value :=
  <["id" := Str (q_id entry)]>
  (<["user_id" := Str (q_user_id entry)]>
  (<["problem_id" := Str (q_problem_id entry)]>
  (<["score" := Int (q_score entry)]>
  (<["replay_result" := Str (q_replay_result entry)]>
  (<["timestamp" := Datetime (q_timestamp entry)]> ∅))))).

(** A dict of the leaderboard holds its whole row. *)
Global Instance dict_inj : Inj (=) (=) dict.
Proof.
  intros [i u p s rr ts] [i' u' p' s' rr' ts'] Heq.
  pose proof (f_equal (.!! "id") Heq) as H1.
  pose proof (f_equal (.!! "user_id") Heq) as H2.
  pose proof (f_equal (.!! "problem_id") Heq) as H3.
  pose proof (f_equal (.!! "score") Heq) as H4.
  pose proof (f_equal (.!! "replay_result") Heq) as H5.
  pose proof (f_equal (.!! "timestamp") Heq) as H6.
  vm_compute in H1, H2, H3, H4, H5, H6. congruence.
Qed.

(** The loop [for entry in submissions_by_problem], with its two
    accumulators [leaderboard] and [seen]. *)
Fixpoint for_entry (submissions_by_problem : list QueryRow)
    (leaderboard : list (gmap string Value)) (seen : gset string)
  : list (gmap string Value) :=
  match submissions_by_problem with
  | [] => leaderboard
  | entry :: rest =>
      if decide (q_user_id entry ∈ seen)
      then for_entry rest leaderboard seen
      else for_entry rest (leaderboard ++ [dict entry]) (seen ∪ {[q_user_id entry]})
  end.

(** The dict returned by [get_leaderboard_data]: [{"success": True,
    "leaderboard": leaderboard}] or [{"success": False, "error": str(e)}]. *)
Inductive LeaderboardResult :=
  | Leaderboard (leaderboard : list (gmap string Value))
  | LeaderboardFailure (error : DbError).

(** The part of [get_leaderboard_data] that follows [cur.fetchall()]. *)
Definition leaderboard_of (submissions_by_problem : list QueryRow) : LeaderboardResult :=
  Leaderboard (for_entry submissions_by_problem [] ∅).

Definition get_leaderboard_data (db : Table) : LeaderboardResult :=
  leaderboard_of (fetchall db).

(** ** The ordering of records *)

(** A record is replaced only by a strictly better one: a higher score, or
    the same score reached at an earlier time. *)
Definition strictly_better (new old : Row) : Prop :=
  (score old < score new)%Z
  ∨ (score new = score old ∧ (timestamp new < timestamp old)%Z).

Global Instance strictly_better_dec : RelDecision strictly_better.
Proof. intros a b. unfold strictly_better. apply _. Defined.

(** A candidate of [entries] that no candidate of [entries] beats. *)
Definition maximal (m : SubmissionEntry) (entries : list SubmissionEntry) : Prop :=
  m ∈ entries ∧ ∀ e, e ∈ entries → ¬ strictly_better (excluded e) (excluded m).

(** What a run of candidates for one (user, problem) pair does to the row
    stored for that pair. *)
Definition merge (e : SubmissionEntry) (r : Row) : Row :=
  if where_clause (excluded e) r then do_update_set (excluded e) r else r.

Definition merge_all (entries : list SubmissionEntry) (r : Row) : Row :=
  foldl (λ r e, merge e r) r entries.

(** The rows the loop of [get_leaderboard_data] keeps: the first one of
    every user not yet in [seen]. *)
Fixpoint first_per_user (rows : list QueryRow) (seen : gset string) : list QueryRow :=
  match rows with
  | [] => []
  | entry :: rest =>
      if decide (q_user_id entry ∈ seen)
      then first_per_user rest seen
      else entry :: first_per_user rest (seen ∪ {[q_user_id entry]})
  end.

(** The leaderboard of a table: one dict per user with a stored row, made
    of the selected columns of a row of that user that no row of the user
    beats, in ORDER BY order. *)
Definition ranks_best_per_user (db : Table) (result : LeaderboardResult) : Prop :=
  ∃ kept,
    result = Leaderboard (dict <$> kept)
    ∧ NoDup (q_user_id <$> kept)
    ∧ (∀ u, u ∈ (q_user_id <$> kept) ↔ u ∈ (user_id <$> db))
    ∧ (∀ e, e ∈ kept →
         ∃ r, r ∈ db ∧ e = select_list r
              ∧ ∀ r', r' ∈ db → user_id r' = user_id r → ¬ strictly_better r' r)
    ∧ Sorted order_by kept.

(** The keys of every dict of the leaderboard. *)
Definition leaderboard_fields : gset string :=
  {[ "id"; "user_id"; "problem_id"; "score"; "replay_result"; "timestamp" ]}.

(** ** Scenarios of the specification, run on the model *)

Module Scenario.

Definition entry (sid u p : string) (s t : Z) : SubmissionEntry :=
  mkEntry sid u p s "passed" t None.

Definition a1 := entry "a1" "u1" "p1" 50 1.
Definition a2 := entry "a2" "u1" "p1" 80 2.
Definition a3 := entry "a3" "u1" "p1" 80 3.
Definition b1 := entry "b1" "u1" "p1" 90 1.
Definition b2 := entry "b2" "u1" "p2" 70 2.
Definition c1 := entry "c1" "u2" "p1" 60 5.
Definition c2 := entry "c2" "u2" "p1" 60 3.
Definition d1 := mkEntry "d1" "u3" "p1" 60 "passed" 5 (Some ["ok"]).
Definition d2 := mkEntry "d2" "u3" "p1" 60 "timeout" 5 None.
(** A candidate for a new pair that reuses the id of [a1]. *)
Definition a1_reused := entry "a1" "u4" "p1" 70 9.
(** A score one past the largest INTEGER. *)
Definition too_high := entry "h1" "u1" "p1" 2147483648 0.
(** Fifty characters, the width of [user_id] and of [username]; a
    [user_id] one character longer, and one with a space past the
    fifty. *)
Definition fifty : string :=
  "uuuuuuuuuuuuuuuuuuuuuuuuuuuuuuuuuuuuuuuuuuuuuuuuuu".
Definition long_user := entry "l1" (fifty +:+ "x") "p1" 70 4.
Definition spaced_user := entry "s1" (fifty +:+ " ") "p1" 70 4.
(** Two records of one user that tie. *)
Definition t1 := entry "t1" "u5" "p1" 40 7.
Definition t2 := entry "t2" "u5" "p2" 40 7.

End Scenario.

(** ** Passwords

    Python's [str] is a sequence of code points and [bytes] a sequence of
    byte values: both are lists of integers here. *)

(** [chr(c).encode('utf-8')]; [None] is [UnicodeEncodeError], raised for
    the surrogates U+D800..U+DFFF.  A [str] holds no code point outside
    0..0x10FFFF. *)
Definition encode_char (c : Z) : option (list Z) :=
  if decide (0 ≤ c < 0x80)%Z then Some [c]
  else if decide (0x80 ≤ c < 0x800)%Z then
    Some [0xC0 + c / 0x40; 0x80 + c mod 0x40]%Z
  else if decide (0x800 ≤ c < 0xD800 ∨ 0xE000 ≤ c < 0x10000)%Z then
    Some [0xE0 + c / 0x1000; 0x80 + (c / 0x40) mod 0x40; 0x80 + c mod 0x40]%Z
  else if decide (0x10000 ≤ c < 0x110000)%Z then
    Some [0xF0 + c / 0x40000; 0x80 + (c / 0x1000) mod 0x40;
          0x80 + (c / 0x40) mod 0x40; 0x80 + c mod 0x40]%Z
  else None.

(** [s.encode('utf-8')] *)
Fixpoint encode_utf8 (s : list Z) : option (list Z) :=
  match s with
  | [] => Some []
  | c :: s' =>
      cb ← encode_char c; sb ← encode_utf8 s'; Some (cb ++ sb)
  end.

Definition continuation (b : Z) : Prop := (0x80 ≤ b ≤ 0xBF)%Z.

Global Instance continuation_dec b : Decision (continuation b).
Proof. unfold continuation. apply _. Defined.

(** [bs.decode('utf-8')], the strict decoder; [None] is
    [UnicodeDecodeError]: a byte that starts no character, a character cut
    short, an overlong form, a surrogate or a value past U+10FFFF. *)
Fixpoint decode_utf8 (bs : list Z) : option (list Z) :=
  match bs with
  | [] => Some []
  | b0 :: r0 =>
      if decide (0 ≤ b0 < 0x80)%Z then cons b0 <$> decode_utf8 r0
      else if decide (0xC2 ≤ b0 ≤ 0xDF)%Z then
        match r0 with
        | b1 :: r1 =>
            if decide (continuation b1)
            then cons ((b0 - 0xC0) * 0x40 + (b1 - 0x80))%Z <$> decode_utf8 r1
            else None
        | _ => None
        end
      else if decide (0xE0 ≤ b0 ≤ 0xEF)%Z then
        match r0 with
        | b1 :: b2 :: r2 =>
            if decide (continuation b1 ∧ continuation b2
                       ∧ (b0 = 0xE0 → 0xA0 ≤ b1)%Z ∧ (b0 = 0xED → b1 ≤ 0x9F)%Z)
            then cons ((b0 - 0xE0) * 0x1000 + (b1 - 0x80) * 0x40 + (b2 - 0x80))%Z
                   <$> decode_utf8 r2
            else None
        | _ => None
        end
      else if decide (0xF0 ≤ b0 ≤ 0xF4)%Z then
        match r0 with
        | b1 :: b2 :: b3 :: r3 =>
            if decide (continuation b1 ∧ continuation b2 ∧ continuation b3
                       ∧ (b0 = 0xF0 → 0x90 ≤ b1)%Z ∧ (b0 = 0xF4 → b1 ≤ 0x8F)%Z)
            then cons ((b0 - 0xF0) * 0x40000 + (b1 - 0x80) * 0x1000
                       + (b2 - 0x80) * 0x40 + (b3 - 0x80))%Z
                   <$> decode_utf8 r3
            else None
        | _ => None
        end
      else None
  end.

(** The loop [while truncated_bytes: ...] of [create_user] and
    [verify_user].  [truncated_bytes] is [password_bytes[:n]] all along:
    it starts as [password_bytes[:72]] and loses its last byte each time
    decoding fails.  When it decodes, [password] is rebound to the result
    and the loop is left; when it runs empty, [password] is what it
    was. *)
Fixpoint while_truncated_bytes (password_bytes : list Z) (n : nat)
    (password : list Z) : list Z :=
  match n with
  | O => password
  | S m =>
      match decode_utf8 (take n password_bytes) with
      | Some decoded => decoded
      | None => while_truncated_bytes password_bytes m password
      end
  end.

(** The password that is hashed: lines 59-67 of [create_user], and the
    same lines of [verify_user].  [None] is the [UnicodeEncodeError] of
    [password.encode('utf-8')]. *)
Definition truncate_password (password : list Z) : option (list Z) :=
  password_bytes ← encode_utf8 password;
  Some (if decide (72 < length password_bytes)
        then while_truncated_bytes password_bytes 72 password
        else password).


(** A password of 71 letters, a two-byte character and one more letter:
    74 bytes. *)
Definition long_password : list Z := replicate 71 97%Z ++ [233; 98]%Z.

(** ** The [users] table, [create_user] and [verify_user] *)

(** One row of [users].  [user_pk] is the column [id SERIAL PRIMARY KEY];
    [username] and [email] are UNIQUE. *)
Record UserRow := mkUser {
  user_pk : Z;
  username : string;
  email : string;
  hashed_password : string;
  created_at : Z
}.

(** The table with the sequence behind its SERIAL column:
    [users_id_seq] is the last value the sequence has handed out. *)
Record Users := mkUsers {
  user_rows : list UserRow;
  users_id_seq : Z
}.

(** [needle in haystack] on strings. *)
Fixpoint contains (needle haystack : string) : bool :=
  String.prefix needle haystack
  || match haystack with
     | EmptyString => false
     | String _ rest => contains needle rest
     end.

(** The exceptions that the generic handlers of the two functions catch:
    the one of [password.encode], and those of [cur.execute]. *)
Inductive PyError :=
  | UnicodeEncodeError
  | ExecuteError (e : DbError).

(** The value under ["error"] in a result: a fixed text, or one of the
    f-strings [f"Error: {str(e)}"] and [f"Database error: {str(e)}"]. *)
Inductive ErrorText :=
  | Text (s : string)
  | ErrorOf (e : PyError)
  | DatabaseErrorOf (e : PyError).

(** The dict returned by [create_user]. *)
Inductive CreateResult :=
  | UserCreated (user_id : Z) (name : string)
  | CreateFailed (error : ErrorText).

(** The dict returned by [verify_user]. *)
Inductive LoginResult :=
  | LoginOk (user_id : Z) (name mail : string)
  | LoginFailed (error : ErrorText).

(** The row of an INSERT at the types of the columns of [users]:
    [username VARCHAR(50)], [email VARCHAR(100)] and [hashed_password
    VARCHAR(255)]. *)
Definition user_values (row : UserRow) : DbError + UserRow :=
  if has_nul (username row) || has_nul (email row) || has_nul (hashed_password row)
  then inl ValueError
  else
    match varchar 50 (username row), varchar 100 (email row),
          varchar 255 (hashed_password row) with
    | Some name, Some mail, Some hashed =>
        inr (mkUser (user_pk row) name mail hashed (created_at row))
    | _, _, _ => inl DataError
    end.

(** The unique constraints of [users] that a row violates. *)
Definition violated_constraints (row : UserRow) (rows : list UserRow) : list string :=
  (if decide (user_pk row ∈ user_pk <$> rows) then ["users_pkey"] else [])
  ++ (if decide (username row ∈ username <$> rows) then ["users_username_key"] else [])
  ++ (if decide (email row ∈ email <$> rows) then ["users_email_key"] else []).

Section users.

(** [pwd_context.hash], with the salt it draws, and [pwd_context.verify]:
    passlib's argon2, outside the repository. *)
Context (pwd_hash : Z → list Z → string) (pwd_verify : list Z → string → bool).

(** [str(e)] of the [IntegrityError] raised for a row that violates the
    given constraints: PostgreSQL reports one of them, in its own
    words. *)
Context (pgerror : list string → UserRow → string).

(** [create_user], once connected; [salt] is the salt the hash draws and
    [now] is CURRENT_TIMESTAMP.  A value that does not fit its column is
    an error before the statement runs, and so is a sequence that has
    handed out its last 32-bit value: these are no [IntegrityError] and go
    to the generic handler.  The INSERT then takes the next value of the
    sequence before the unique indexes are checked, and a rollback does
    not give it back.  The result holds the [username] passed in. *)
Definition create_user (name mail : string) (password : list Z) (salt now : Z)
    (db : Users) : CreateResult * Users :=
  match truncate_password password with
  | None => (CreateFailed (ErrorOf UnicodeEncodeError), db)
  | Some password =>
      let hashed_password := pwd_hash salt password in
      let user_id := (users_id_seq db + 1)%Z in
      match user_values (mkUser user_id name mail hashed_password now) with
      | inl e => (CreateFailed (ErrorOf (ExecuteError e)), db)
      | inr row =>
          if decide (2147483647 < user_id)%Z
          then (CreateFailed (ErrorOf (ExecuteError DataError)), db)
          else
            match violated_constraints row (user_rows db) with
            | (_ :: _) as violated =>
                let error_msg := pgerror violated row in
                (CreateFailed
                   (if contains "username" error_msg then Text "Username already exists"
                    else if contains "email" error_msg then Text "Email already exists"
                    else Text "Username or email already exists"),
                 mkUsers (user_rows db) user_id)
            | [] =>
                (UserCreated user_id name, mkUsers (user_rows db ++ [row]) user_id)
            end
      end
  end.

(** [verify_user], once connected.  [fetchone] gives the first row of
    [SELECT * FROM users WHERE username = %s]; a username with the
    character NUL makes [cur.execute] raise. *)
Definition verify_user (name : string) (password : list Z) (db : Users) : LoginResult :=
  if has_nul name then LoginFailed (DatabaseErrorOf (ExecuteError ValueError))
  else
    match list_find (λ u, username u = name) (user_rows db) with
    | None => LoginFailed (Text "Invalid credentials")
    | Some (_, user) =>
        match truncate_password password with
        | None => LoginFailed (DatabaseErrorOf UnicodeEncodeError)
        | Some password =>
            if pwd_verify password (hashed_password user)
            then LoginOk (user_pk user) (username user) (email user)
            else LoginFailed (Text "Invalid credentials")
        end
    end.

(** The arguments of one [create_user] call, with its salt and time. *)
Record CreateCall := mkCall {
  call_username : string;
  call_email : string;
  call_password : list Z;
  call_salt : Z;
  call_now : Z
}.

(** A run of [create_user] calls, one after another. *)
Definition create_user_all (calls : list CreateCall) (db : Users) : Users :=
  foldl (λ db c, (create_user (call_username c) (call_email c) (call_password c)
                    (call_salt c) (call_now c) db).2) db calls.

End users.

(** The constraints of [users], and no [id] ahead of the sequence. *)
Definition users_ok (db : Users) : Prop :=
  NoDup (username <$> user_rows db)
  ∧ NoDup (email <$> user_rows db)
  ∧ NoDup (user_pk <$> user_rows db)
  ∧ ∀ u, u ∈ user_rows db → (user_pk u ≤ users_id_seq db)%Z.

(** A row of [users] whose strings fit the columns as they are. *)
Definition user_fits (name mail hashed : string) : Prop :=
  has_nul name = false ∧ has_nul mail = false ∧ has_nul hashed = false
  ∧ (String.length name ≤ 50)%nat
  ∧ (String.length mail ≤ 100)%nat
  ∧ (String.length hashed ≤ 255)%nat.

(** A stand-in for the password hash and for PostgreSQL's messages, to
    run the model on examples. *)
Definition sample_hash (salt : Z) (password : list Z) : string :=
  String.string_of_list_ascii (Ascii.ascii_of_N ∘ Z.to_N <$> password).

Definition sample_verify (password : list Z) (hashed : string) : bool :=
  bool_decide (sample_hash 0 password = hashed).

Definition sample_pgerror (violated : list string) (row : UserRow) : string :=
  "duplicate key value violates unique constraint " +:+ default "" (head violated).

Definition alice : CreateCall := mkCall "alice" "alice@example.org" [112; 119]%Z 5 100.

(** ** Problem files: [src/api/api_server.py] *)

(** A JSON value as [json.load] gives it: [None], a [bool], a number, a
    [str], a [list], a [dict].  Numbers are kept as integers; nothing
    here looks into them. *)
Local Unset Elimination Schemes.
Inductive json :=
  | JNull
  | JBool (b : bool)
  | JNumber (n : Z)
  | JString (s : list Z)
  | JArray (items : list json)
  | JObject (members : gmap string json).
Local Set Elimination Schemes.

(** What [json.load] makes of a file of the directory [test_cases]: a
    value, or [JSONDecodeError]. *)
Inductive FileData :=
  | NotJson
  | Json (data : json).

(** The directory [test_cases]: its entries by name.  For a
    [problem_id] without a path separator the path
    [test_cases/{problem_id}.json] names the entry [{problem_id}.json]. *)
Abbreviation TestCases := (gmap string FileData).

(** What the code run inside a [try] raises. *)
Inductive Caught :=
  | RaisedHTTPException (status_code : Z) (detail : string)
  | JSONDecodeError
  | AttributeError
  | TypeError.

(** A value, or an exception on its way up. *)
Inductive Try (A : Type) :=
  | Returns (a : A)
  | Raises (e : Caught).
Arguments Returns {A} a.
Arguments Raises {A} e.

Definition try_bind {A B} (x : Try A) (f : A → Try B) : Try B :=
  match x with
  | Returns a => f a
  | Raises e => Raises e
  end.

(** [data.get(key, default)]: only a [dict] has the method. *)
Definition py_get (data : json) (key : string) (default_value : json) : Try json :=
  match data with
  | JObject members => Returns (default default_value (members !! key))
  | _ => Raises AttributeError
  end.

(** [len(value)] *)
Definition py_len (value : json) : Try nat :=
  match value with
  | JString s => Returns (length s)
  | JArray items => Returns (length items)
  | JObject members => Returns (size members)
  | _ => Raises TypeError
  end.

(** The code points of a string of ASCII characters. *)
Definition codepoints (s : string) : list Z :=
  (Z.of_N ∘ Ascii.N_of_ascii) <$> String.list_ascii_of_string s.

(** [needle in haystack] on code points. *)
Fixpoint str_contains (needle haystack : list Z) : bool :=
  bool_decide (needle `prefix_of` haystack)
  || match haystack with
     | [] => false
     | _ :: rest => str_contains needle rest
     end.

(** [key in data], for a [str] key: a key of a [dict], an item of a
    [list], a part of a [str]. *)
Definition py_in (key : string) (data : json) : Try bool :=
  match data with
  | JObject members => Returns (bool_decide (is_Some (members !! key)))
  | JArray items =>
      Returns (existsb (λ item, match item with
                                | JString s => bool_decide (s = codepoints key)
                                | _ => false
                                end) items)
  | JString s => Returns (str_contains (codepoints key) s)
  | _ => Raises TypeError
  end.

(** [s.endswith(suffix)] *)
Fixpoint endswith (s suffix : string) : bool :=
  String.eqb s suffix
  || match s with
     | EmptyString => false
     | String _ rest => endswith rest suffix
     end.

(** [s.replace(old, new)] for a non-empty [old]: every occurrence of
    [old], from the left and without overlap, becomes [new].  [skip]
    counts the characters of an occurrence still to pass over. *)
Fixpoint replace_from (old new : string) (skip : nat) (s : string) : string :=
  match s with
  | EmptyString => EmptyString
  | String a rest =>
      match skip with
      | S k => replace_from old new k rest
      | O =>
          if String.prefix old s
          then new +:+ replace_from old new (String.length old - 1) rest
          else String a (replace_from old new 0 rest)
      end
  end.

Definition str_replace (s old new : string) : string := replace_from old new 0 s.

(** The answer of an endpoint: the body returned, or [HTTPException]. *)
Inductive Detail :=
  | DetailText (s : string)
  | DetailError (error : ErrorText)
  | DetailDatabaseError (error : DbError)
  | DetailErrorLoadingProblem (e : Caught).

Inductive Response (A : Type) :=
  | Ok (body : A)
  | HTTPException (status_code : Z) (detail : Detail).
Arguments Ok {A} body.
Arguments HTTPException {A} status_code detail.

(** The body of [get_problem_details]. *)
Record ProblemDetails := mkDetails {
  details_problem_id : string;
  public_tests : json;
  hidden_tests_count : nat;
  total_tests : nat
}.

(** The [try] block of [get_problem_details]; the values of the dict are
    computed in the order they are written. *)
Definition load_problem (problem_id : string) (test_cases : TestCases) : Try ProblemDetails :=
  match test_cases !! (problem_id +:+ ".json") with
  | None => Raises (RaisedHTTPException 404 "Problem not found")
  | Some NotJson => Raises JSONDecodeError
  | Some (Json problem_data) =>
      try_bind (py_get problem_data "public_tests" (JArray [])) (λ public,
      try_bind (py_get problem_data "hidden_tests" (JArray [])) (λ hidden,
      try_bind (py_len hidden) (λ hidden_count,
      try_bind (py_len public) (λ public_count,
      Returns (mkDetails problem_id public hidden_count
                 (public_count + hidden_count))))))
  end.

(** [get_problem_details]: [except Exception] catches whatever the block
    raised, its own [HTTPException] included. *)
Definition get_problem_details (problem_id : string) (test_cases : TestCases)
  : Response ProblemDetails :=
  match load_problem problem_id test_cases with
  | Returns details => Ok details
  | Raises e => HTTPException 500 (DetailErrorLoadingProblem e)
  end.

(** One turn of the loop of [list_problems]: the name to append, if
    any. *)
Definition listed (file : string) (content : FileData) : option string :=
  if endswith file ".json" then
    match content with
    | NotJson => None
    | Json data =>
        match py_in "public_tests" data with
        | Returns true => Some (str_replace file ".json" "")
        | Returns false =>
            match py_in "hidden_tests" data with
            | Returns true => Some (str_replace file ".json" "")
            | _ => None
            end
        | Raises _ => None
        end
    end
  else None.

(** [list_problems]: [os.listdir] gives the entries in some order, here
    the order of the map. *)
Definition list_problems (test_cases : TestCases) : list string :=
  omap (λ entry, listed entry.1 entry.2) (map_to_list test_cases).

(** [SignupRequest], [LoginRequest] and [Submission]. *)
Record SignupRequest := mkSignup {
  signup_username : string;
  signup_email : string;
  signup_password : list Z
}.

Record LoginRequest := mkLogin {
  login_username : string;
  login_password : list Z
}.

Record Submission := mkSubmission {
  submission_user_id : string;
  submission_problem_id : string;
  submission_code : list Z
}.

(** [get_leaderboard] *)
Definition get_leaderboard (db : Table) : Response (list (gmap string Value)) :=
  match get_leaderboard_data db with
  | Leaderboard leaderboard => Ok leaderboard
  | LeaderboardFailure error => HTTPException 500 (DetailDatabaseError error)
  end.

Section endpoints.

Context (pwd_hash : Z → list Z → string) (pwd_verify : list Z → string → bool).
Context (pgerror : list string → UserRow → string).

(** [signup] *)
Definition signup (request : SignupRequest) (salt now : Z) (db : Users)
  : Response CreateResult * Users :=
  match create_user pwd_hash pgerror (signup_username request)
          (signup_email request) (signup_password request) salt now db with
  | (CreateFailed error, db') => (HTTPException 400 (DetailError error), db')
  | (result, db') => (Ok result, db')
  end.

(** [login] *)
Definition login (request : LoginRequest) (db : Users) : Response LoginResult :=
  match verify_user pwd_verify (login_username request) (login_password request) db with
  | LoginFailed error => HTTPException 401 (DetailError error)
  | result => Ok result
  end.

(** The dict returned by [grade_submission], of the module [grader]
    that is not in the sources: its entry for the database, and what
    else it holds. *)
Context {Report : Type}.
Context (grade_submission : list Z → string → string → SubmissionEntry * Report).

(** [submit_code]; [now] is [datetime.now()].  The entry is the dict
    held by the grader's result, so the new timestamp shows in both
    parts of the body. *)
Definition submit_code (submission : Submission) (now : Z)
    (test_cases : TestCases) (db : Table)
  : Response ((SubmissionEntry * Report) * SubmissionEntry) * Table :=
  match test_cases !! (submission_problem_id submission +:+ ".json") with
  | None => (HTTPException 404 (DetailText "Problem test cases not found"), db)
  | Some _ =>
      let result := grade_submission (submission_code submission)
                      (submission_problem_id submission)
                      (submission_user_id submission) in
      let submission_entry :=
        mkEntry (submission_id result.1) (entry_user_id result.1)
          (entry_problem_id result.1) (entry_score result.1)
          (entry_replay_result result.1) now (entry_error_details result.1) in
      match save_submission submission_entry db with
      | (Failure error, db') => (HTTPException 500 (DetailDatabaseError error), db')
      | (Success, db') => (Ok ((submission_entry, result.2), submission_entry), db')
      end
  end.

End endpoints.

(** A directory with one well-formed problem. *)
Definition two_sum : json :=
  JObject (<["public_tests" := JArray [JNumber 1; JNumber 2]]>
           (<["hidden_tests" := JArray [JNumber 3]]> ∅)).

Definition sample_test_cases : TestCases :=
  <["two_sum.json" := Json two_sum]> (<["notes.txt" := NotJson]> ∅).

(** A grader that gives every submission the score 75. *)
Definition sample_grader (code : list Z) (problem_id user_id : string)
  : SubmissionEntry * unit :=
  (mkEntry "g1" user_id problem_id 75 "passed" 0 None, tt).

(** * Properties *)

(** ** The WHERE clause and the ordering *)

Lemma where_clause_true new old :
  where_clause new old = true ↔ strictly_better new old.
Proof.
  unfold where_clause, strictly_better.
  rewrite orb_true_iff, andb_true_iff, !Z.ltb_lt, Z.eqb_eq. tauto.
Qed.

Lemma where_clause_false new old :
  where_clause new old = false ↔ ¬ strictly_better new old.
Proof. rewrite <-where_clause_true. destruct (where_clause new old); naive_solver. Qed.

Lemma strictly_better_irrefl r : ¬ strictly_better r r.
Proof. unfold strictly_better. lia. Qed.

Lemma strictly_better_trans a b c :
  strictly_better a b → strictly_better b c → strictly_better a c.
Proof. unfold strictly_better. lia. Qed.

Lemma not_better_trans a b c :
  ¬ strictly_better a b → ¬ strictly_better b c → ¬ strictly_better a c.
Proof. unfold strictly_better. lia. Qed.

Lemma not_better_antisym a b :
  ¬ strictly_better a b → ¬ strictly_better b a →
  score a = score b ∧ timestamp a = timestamp b.
Proof. unfold strictly_better. lia. Qed.

Lemma key_do_update_set new old : key (do_update_set new old) = key old.
Proof. reflexivity. Qed.

Lemma do_update_set_changes new old :
  strictly_better new old → do_update_set new old ≠ old.
Proof.
  intros Hb Heq. apply (strictly_better_irrefl old).
  rewrite <-Heq at 1. exact Hb.
Qed.

(** ** The stored row of a pair *)

Lemma stored_Some k t r :
  stored k t = Some r ↔ ∃ i, list_find (λ r, key r = k) t = Some (i, r).
Proof.
  unfold stored. rewrite fmap_Some. split.
  - intros [[i r'] [? ->]]. eauto.
  - intros [i ?]. by exists (i, r).
Qed.

Lemma stored_None k t : stored k t = None ↔ k ∉ (key <$> t).
Proof.
  unfold stored. rewrite fmap_None, list_find_None, Forall_forall, list_elem_of_fmap.
  split.
  - intros Hall (r & -> & Hr). by apply (Hall r).
  - intros Hnot r Hr Hk. apply Hnot. by exists r.
Qed.

Lemma stored_key k t r : stored k t = Some r → key r = k ∧ r ∈ t.
Proof.
  intros [i (Hi & ? & _)%list_find_Some]%stored_Some.
  eauto using list_elem_of_lookup_2.
Qed.

Lemma stored_cons k r t :
  stored k (r :: t) = if decide (key r = k) then Some r else stored k t.
Proof.
  unfold stored. cbn. case_decide; [done|].
  by destruct (list_find _ t) as [[]|].
Qed.

Lemma stored_app k t r :
  stored k (t ++ [r]) =
  match stored k t with
  | Some old => Some old
  | None => if decide (key r = k) then Some r else None
  end.
Proof.
  induction t as [|x t IH]; cbn [app]; rewrite !stored_cons.
  - reflexivity.
  - destruct (decide (key x = k)); [done|]. apply IH.
Qed.

(** ** The statement, case by case *)

Lemma on_conflict_find new t :
  on_conflict new t =
  (λ '(i, old), if where_clause new old
                then (1, <[i:=do_update_set new old]> t)
                else (0, t))
  <$> list_find (λ r, key r = key new) t.
Proof.
  induction t as [|x t IH]; [done|]. cbn.
  case_decide; [done|]. rewrite IH.
  destruct (list_find _ t) as [[i old]|]; [|done].
  cbn. by destruct (where_clause new old).
Qed.

Lemma insert_on_conflict_new new t :
  stored (key new) t = None → (sub_id new ∉ (sub_id <$> t)) →
  insert_on_conflict new t = RowCount 1 (t ++ [new]).
Proof.
  intros Hs Hid. unfold insert_on_conflict. rewrite on_conflict_find.
  unfold stored in Hs. apply fmap_None in Hs. rewrite Hs. cbn.
  by rewrite decide_False.
Qed.

Lemma insert_on_conflict_duplicate_id new t :
  stored (key new) t = None → sub_id new ∈ (sub_id <$> t) →
  insert_on_conflict new t = Raised (UniqueViolation "submissions_pkey").
Proof.
  intros Hs Hid. unfold insert_on_conflict. rewrite on_conflict_find.
  unfold stored in Hs. apply fmap_None in Hs. rewrite Hs. cbn.
  by rewrite decide_True.
Qed.

Lemma insert_on_conflict_update new t i old :
  list_find (λ r, key r = key new) t = Some (i, old) →
  strictly_better new old →
  insert_on_conflict new t = RowCount 1 (<[i:=do_update_set new old]> t).
Proof.
  intros Hf Hb%where_clause_true. unfold insert_on_conflict.
  rewrite on_conflict_find, Hf. cbn. by rewrite Hb.
Qed.

Lemma insert_on_conflict_skip new t old :
  stored (key new) t = Some old → ¬ strictly_better new old →
  insert_on_conflict new t = RowCount 0 t.
Proof.
  intros [i Hf]%stored_Some Hb%where_clause_false. unfold insert_on_conflict.
  rewrite on_conflict_find, Hf. cbn. by rewrite Hb.
Qed.

Lemma insert_update_changes (t : Table) i new old :
  t !! i = Some old → strictly_better new old →
  <[i:=do_update_set new old]> t ≠ t.
Proof.
  intros Hi Hb Heq. apply (do_update_set_changes new old Hb).
  assert (<[i:=do_update_set new old]> t !! i = Some (do_update_set new old)) as Hl
    by (apply list_lookup_insert_eq; eauto using lookup_lt_Some).
  rewrite Heq, Hi in Hl. congruence.
Qed.

Lemma stored_insert_same (t : Table) k i old r :
  list_find (λ r, key r = k) t = Some (i, old) → key r = k →
  stored k (<[i:=r]> t) = Some r.
Proof.
  intros (Hi & Hk & Hleast)%list_find_Some Hr.
  apply stored_Some. exists i. apply list_find_Some. split_and!.
  - apply list_lookup_insert_eq. eauto using lookup_lt_Some.
  - done.
  - intros j y Hj Hlt. rewrite list_lookup_insert_ne in Hj by lia. eauto.
Qed.

Lemma stored_insert_other (t : Table) k i old r :
  t !! i = Some old → key old ≠ k → key r ≠ k →
  stored k (<[i:=r]> t) = stored k t.
Proof.
  revert i. induction t as [|x t IH]; intros [|i] Hi Hold Hr; simplify_eq/=.
  - rewrite !stored_cons. by rewrite !decide_False.
  - rewrite !stored_cons. case_decide; [done|]. eauto.
Qed.

(** The four ways the statement can go for a row that has the types of
    the columns. *)
Lemma insert_on_conflict_cases new t :
  (stored (key new) t = None ∧ (sub_id new ∉ (sub_id <$> t))
     ∧ insert_on_conflict new t = RowCount 1 (t ++ [new]))
  ∨ (stored (key new) t = None ∧ sub_id new ∈ (sub_id <$> t)
     ∧ insert_on_conflict new t = Raised (UniqueViolation "submissions_pkey"))
  ∨ (∃ i old, list_find (λ r, key r = key new) t = Some (i, old)
     ∧ strictly_better new old
     ∧ insert_on_conflict new t = RowCount 1 (<[i:=do_update_set new old]> t))
  ∨ (∃ old, stored (key new) t = Some old ∧ ¬ strictly_better new old
     ∧ insert_on_conflict new t = RowCount 0 t).
Proof.
  destruct (list_find (λ r, key r = key new) t) as [[i old]|] eqn:Hf.
  - assert (stored (key new) t = Some old) as Hs by (apply stored_Some; eauto).
    destruct (decide (strictly_better new old)) as [Hb|Hb].
    + right; right; left. exists i, old. eauto using insert_on_conflict_update.
    + right; right; right. exists old. eauto using insert_on_conflict_skip.
  - assert (stored (key new) t = None) as Hs by (unfold stored; by rewrite Hf).
    destruct (decide (sub_id new ∈ (sub_id <$> t))).
    + right; left. eauto using insert_on_conflict_duplicate_id.
    + left. eauto using insert_on_conflict_new.
Qed.

(** ** Values at the types of the columns *)

Lemma varchar_fits n s : (String.length s ≤ n)%nat → varchar n s = Some s.
Proof. intros Hlen. unfold varchar. by rewrite decide_True. Qed.

Lemma integer_Some z z' : integer z = Some z' → z' = z.
Proof. unfold integer. case_decide; congruence. Qed.

Lemma submission_values_fits r : fits_columns r → submission_values r = inr r.
Proof.
  intros (Hu & Hp & Hr & Hlu & Hlp & Hs & Hlr). unfold submission_values, integer.
  rewrite Hu, Hp, Hr, !varchar_fits by done. cbn [orb].
  rewrite decide_True by done. by destruct r.
Qed.

(** The values keep the [id], the score, the timestamp and the error
    details of the candidate. *)
Lemma submission_values_inr new r :
  submission_values new = inr r →
  sub_id r = sub_id new ∧ score r = score new ∧ timestamp r = timestamp new
  ∧ error_details r = error_details new.
Proof.
  unfold submission_values. destruct (_ || _); [done|].
  destruct (varchar 50 (user_id new)); [|done].
  destruct (varchar 100 (problem_id new)); [|done].
  destruct (integer (score new)) as [points|] eqn:Hpoints; [|done].
  destruct (varchar 50 (replay_result new)); [|done].
  intros [= <-]. cbn. split_and!; [done| |done..]. by apply integer_Some.
Qed.

(** The row of the values is stored under the [user_id] that the column
    makes of the candidate's. *)
Lemma submission_values_user new r :
  submission_values new = inr r → varchar 50 (user_id new) = Some (user_id r).
Proof.
  unfold submission_values. destruct (_ || _); [done|].
  destruct (varchar 50 (user_id new)); [|done].
  destruct (varchar 100 (problem_id new)); [|done].
  destruct (integer (score new)); [|done].
  destruct (varchar 50 (replay_result new)); [|done].
  by intros [= <-].
Qed.

Lemma execute_insert_fits new t :
  fits_columns new → execute_insert new t = insert_on_conflict new t.
Proof. intros Hfits. unfold execute_insert. by rewrite submission_values_fits. Qed.

Lemma save_all_cons e entries db :
  save_all (e :: entries) db = save_all entries (save_submission e db).2.
Proof. reflexivity. Qed.

(** A call fails on the values of the candidate, or runs the statement on
    the row they make. *)
Lemma save_submission_values e db :
  (∃ err, submission_values (excluded e) = inl err
          ∧ execute_insert (excluded e) db = Raised err
          ∧ save_submission e db = (Failure err, db))
  ∨ (∃ new, submission_values (excluded e) = inr new
            ∧ sub_id new = submission_id e
            ∧ score new = entry_score e
            ∧ timestamp new = entry_timestamp e
            ∧ execute_insert (excluded e) db = insert_on_conflict new db).
Proof.
  unfold save_submission, execute_insert.
  destruct (submission_values (excluded e)) as [err|new] eqn:Hv.
  - left. by exists err.
  - right. exists new. apply submission_values_inr in Hv as (? & ? & ? & _).
    by split_and!.
Qed.

Lemma save_submission_new e db :
  fits_columns (excluded e) →
  stored (key (excluded e)) db = None → (submission_id e ∉ (sub_id <$> db)) →
  save_submission e db = (Success, db ++ [excluded e]).
Proof.
  intros Hfits Hs Hid. unfold save_submission.
  by rewrite execute_insert_fits, (insert_on_conflict_new (excluded e) db Hs Hid).
Qed.

Lemma save_submission_skip e db old :
  fits_columns (excluded e) →
  stored (key (excluded e)) db = Some old → ¬ strictly_better (excluded e) old →
  save_submission e db = (Success, db).
Proof.
  intros Hfits Hs Hb. unfold save_submission.
  by rewrite execute_insert_fits, (insert_on_conflict_skip (excluded e) db old Hs Hb).
Qed.

Lemma save_submission_update e db i old :
  fits_columns (excluded e) →
  list_find (λ r, key r = key (excluded e)) db = Some (i, old) →
  strictly_better (excluded e) old →
  save_submission e db = (Success, <[i:=do_update_set (excluded e) old]> db).
Proof.
  intros Hfits Hf Hb. unfold save_submission.
  by rewrite execute_insert_fits, (insert_on_conflict_update (excluded e) db i old Hf Hb).
Qed.

(** A call changes nothing for the pairs other than the one of the row it
    proposes. *)
Lemma save_submission_other_pair e db k :
  (∀ new, submission_values (excluded e) = inr new → k ≠ key new) →
  stored k (save_submission e db).2 = stored k db.
Proof.
  intros Hk.
  destruct (save_submission_values e db)
    as [(err & _ & _ & ->)|(new & Hv & _ & _ & _ & Hex)]; [done|].
  specialize (Hk new Hv). unfold save_submission. rewrite Hex.
  destruct (insert_on_conflict_cases new db)
    as [(_ & _ & ->)|[(_ & _ & ->)|[(i & old & Hf & _ & ->)|(old & _ & _ & ->)]]];
    cbn [snd]; try done.
  - rewrite stored_app. destruct (stored k db); [done|]. by rewrite decide_False.
  - apply list_find_Some in Hf as (Hi & Hkey & _).
    apply (stored_insert_other db k i old); [done|congruence|].
    rewrite key_do_update_set. congruence.
Qed.

Lemma save_submission_other_key e db k :
  fits_columns (excluded e) → k ≠ key (excluded e) →
  stored k (save_submission e db).2 = stored k db.
Proof.
  intros Hfits Hk. apply save_submission_other_pair.
  intros new. rewrite submission_values_fits by done. congruence.
Qed.

(** The columns of the two constraints after a call: unchanged, or one new
    row with a new pair and a new [id]. *)
Lemma save_submission_columns e db :
  (key <$> (save_submission e db).2 = key <$> db
   ∧ sub_id <$> (save_submission e db).2 = sub_id <$> db)
  ∨ (∃ new, (key new ∉ (key <$> db)) ∧ (sub_id new ∉ (sub_id <$> db))
            ∧ (save_submission e db).2 = db ++ [new]).
Proof.
  destruct (save_submission_values e db)
    as [(err & _ & _ & ->)|(new & _ & _ & _ & _ & Hex)]; [by left|].
  unfold save_submission. rewrite Hex.
  destruct (insert_on_conflict_cases new db)
    as [(Hs & Hid & ->)|[(_ & _ & ->)|[(i & old & Hf & _ & ->)|(old & _ & _ & ->)]]];
    cbn [snd]; auto.
  - right. exists new. by apply stored_None in Hs.
  - left. apply list_find_Some in Hf as (Hi & _ & _).
    rewrite !list_fmap_insert. cbn.
    split; apply list_insert_id; by rewrite list_lookup_fmap, Hi.
Qed.

Lemma save_submission_unique_user_problem e db :
  unique_user_problem db → unique_user_problem (save_submission e db).2.
Proof.
  unfold unique_user_problem. intros Hnd.
  destruct (save_submission_columns e db) as [[-> _]|(new & Hk & _ & ->)]; [done|].
  rewrite fmap_app. apply NoDup_app. split_and!; [done| |apply NoDup_singleton].
  intros k Hin ->%list_elem_of_singleton. done.
Qed.

Lemma save_submission_primary_key e db :
  primary_key db → primary_key (save_submission e db).2.
Proof.
  unfold primary_key. intros Hnd.
  destruct (save_submission_columns e db) as [[_ ->]|(new & _ & Hid & ->)]; [done|].
  rewrite fmap_app. apply NoDup_app. split_and!; [done| |apply NoDup_singleton].
  intros k Hin ->%list_elem_of_singleton. done.
Qed.

(** One call on a stored row: it stays as it is when the candidate does
    not beat it, and is else left or replaced by a better one that keeps
    its [id]. *)
Lemma save_submission_improves e db k old :
  stored k db = Some old →
  ∃ r, stored k (save_submission e db).2 = Some r
       ∧ (r = old ∨ strictly_better r old)
       ∧ (¬ strictly_better (excluded e) old → r = old)
       ∧ sub_id r = sub_id old.
Proof.
  intros Hs.
  destruct (save_submission_values e db)
    as [(err & _ & _ & Hsave)|(new & Hv & _ & Hscore & Htime & Hex)].
  { rewrite Hsave. exists old. by split_and!; [|left| |]. }
  destruct (decide (k = key new)) as [->|Hk].
  - unfold save_submission. rewrite Hex.
    destruct (decide (strictly_better new old)) as [Hb|Hb].
    + apply stored_Some in Hs as [i Hf].
      rewrite (insert_on_conflict_update new db i old Hf Hb). cbn [snd].
      exists (do_update_set new old). split_and!.
      * apply (stored_insert_same db _ i old); [done|].
        by apply list_find_Some in Hf as (_ & ? & _).
      * right. exact Hb.
      * intros Hnb. destruct Hnb. revert Hb. unfold strictly_better. cbn.
        rewrite Hscore, Htime. done.
      * done.
    + rewrite (insert_on_conflict_skip new db old Hs Hb). cbn [snd].
      exists old. by split_and!; [|left| |].
  - rewrite save_submission_other_pair.
    + exists old. by split_and!; [|left| |].
    + intros new' Hv'. congruence.
Qed.

(** ** The conditional upsert *)

(** Discharges [fits_columns] and [user_fits] on given values. *)
Ltac fits :=
  unfold fits_columns, user_fits; cbn; split_and!; first [reflexivity | lia].

(** The claim C1 as stated fails: a candidate for a pair with no row is
    not inserted when its [submission_id] is the [id] of a stored row, and
    a candidate with a strictly higher score does not overwrite the stored
    row when that score is past the 32 bits of the column; both get the
    failure result and the table stays as it was. *)
Lemma insert_and_overwrite_refused :
  stored (key (excluded Scenario.a1_reused)) [excluded Scenario.a1] = None
  ∧ save_submission Scenario.a1_reused [excluded Scenario.a1]
    = (Failure (UniqueViolation "submissions_pkey"), [excluded Scenario.a1])
  ∧ stored (key (excluded Scenario.too_high)) [excluded Scenario.a1]
    = Some (excluded Scenario.a1)
  ∧ strictly_better (excluded Scenario.too_high) (excluded Scenario.a1)
  ∧ save_submission Scenario.too_high [excluded Scenario.a1]
    = (Failure DataError, [excluded Scenario.a1]).
Proof. split_and!; [reflexivity..|left; reflexivity|reflexivity]. Qed.

(** C1, amended.  For a candidate whose values fit the columns of the
    table: [save_submission] inserts it when no row is stored for its
    (user, problem) pair and its [submission_id] is not the [id] of a
    stored row.  When a row is stored for the pair, the call succeeds, and
    it overwrites the stored row if and only if the candidate has a
    strictly higher score, or the same score and a strictly earlier
    timestamp; otherwise the table is left exactly as it was. *)
Theorem save_submission_conditional_upsert (e : SubmissionEntry) (db : Table) :
  fits_columns (excluded e) →
  (stored (key (excluded e)) db = None → (submission_id e ∉ (sub_id <$> db)) →
     save_submission e db = (Success, db ++ [excluded e]))
  ∧ (∀ old, stored (key (excluded e)) db = Some old →
       (save_submission e db).1 = Success
       ∧ (strictly_better (excluded e) old →
            stored (key (excluded e)) (save_submission e db).2
              = Some (do_update_set (excluded e) old)
            ∧ ∃ i, db !! i = Some old
                   ∧ (save_submission e db).2 = <[i:=do_update_set (excluded e) old]> db)
       ∧ (¬ strictly_better (excluded e) old → (save_submission e db).2 = db)
       ∧ ((save_submission e db).2 ≠ db ↔ strictly_better (excluded e) old)).
Proof.
  intros Hfits. split; [by apply save_submission_new|].
  intros old Hs.
  destruct (decide (strictly_better (excluded e) old)) as [Hb|Hb].
  - pose proof Hs as [i Hf]%stored_Some.
    pose proof Hf as (Hi & Hk & _)%list_find_Some.
    rewrite (save_submission_update e db i old Hfits Hf Hb). cbn [fst snd].
    split_and!; [done| |done|].
    + intros _. split; [|eauto].
      by apply (stored_insert_same db _ i old).
    + split; [done|]. intros _. by apply insert_update_changes.
  - rewrite (save_submission_skip e db old Hfits Hs Hb). cbn [fst snd].
    split_and!; [done|done|done|]. split; [done|]. intros ?. done.
Qed.

Lemma save_submission_conditional_upsert_witness :
  save_submission Scenario.a1 [] = (Success, [excluded Scenario.a1])
  ∧ (save_submission Scenario.a2 [excluded Scenario.a1]).2 ≠ [excluded Scenario.a1]
  ∧ (save_submission Scenario.a3 [excluded Scenario.a2]).2 = [excluded Scenario.a2].
Proof.
  split_and!.
  - apply (proj1 (save_submission_conditional_upsert Scenario.a1 [] ltac:(fits))).
    + reflexivity.
    + cbn. apply not_elem_of_nil.
  - destruct (proj2 (save_submission_conditional_upsert
                       Scenario.a2 [excluded Scenario.a1] ltac:(fits))
                    (excluded Scenario.a1) eq_refl) as (_ & _ & _ & Hiff).
    apply Hiff. left. reflexivity.
  - destruct (proj2 (save_submission_conditional_upsert
                       Scenario.a3 [excluded Scenario.a2] ltac:(fits))
                    (excluded Scenario.a2) eq_refl) as (_ & _ & Hkeep & _).
    apply Hkeep. unfold strictly_better. cbn. lia.
Defined.

(** The claim C4 as stated fails: after a winning candidate has
    overwritten the stored row, the row still carries the [id] of the
    submission that created it, not the candidate's. *)
Lemma overwrite_keeps_stored_id :
  stored ("u1", "p1") [excluded Scenario.a1] = Some (excluded Scenario.a1)
  ∧ strictly_better (excluded Scenario.a2) (excluded Scenario.a1)
  ∧ sub_id <$> stored ("u1", "p1") (save_submission Scenario.a2 [excluded Scenario.a1]).2
    = Some "a1"
  ∧ submission_id Scenario.a2 = "a2"
  ∧ stored ("u1", "p1") (save_submission Scenario.a2 [excluded Scenario.a1]).2
    ≠ Some (excluded Scenario.a2).
Proof.
  split_and!; [reflexivity|left; reflexivity|reflexivity|reflexivity|].
  vm_compute. discriminate.
Qed.

(** C4, amended.  When a candidate whose values fit the columns wins
    against the row stored for its pair, the columns [score],
    [replay_result], [timestamp] and [error_details] of that row take the
    candidate's values, while [id] (and [user_id], [problem_id]) keep the
    stored values: the row's [id] stays that of the submission that
    created the row.  The rows of the other pairs are not touched. *)
Theorem save_submission_overwrites_set_columns
    (e : SubmissionEntry) (db : Table) (old : Row) :
  fits_columns (excluded e) →
  stored (key (excluded e)) db = Some old →
  strictly_better (excluded e) old →
  stored (key (excluded e)) (save_submission e db).2
    = Some {| sub_id := sub_id old;
              user_id := user_id old;
              problem_id := problem_id old;
              score := entry_score e;
              replay_result := entry_replay_result e;
              timestamp := entry_timestamp e;
              error_details := default [] (entry_error_details e) |}
  ∧ ∀ k, k ≠ key (excluded e) → stored k (save_submission e db).2 = stored k db.
Proof.
  intros Hfits Hs Hb. split; [|intros k Hk; by apply save_submission_other_key].
  pose proof Hs as [i Hf]%stored_Some.
  pose proof Hf as (_ & Hk & _)%list_find_Some.
  rewrite (save_submission_update e db i old Hfits Hf Hb). cbn [snd].
  by apply (stored_insert_same db _ i old).
Qed.

Lemma save_submission_overwrites_set_columns_witness :
  stored ("u1", "p1") (save_submission Scenario.a2 [excluded Scenario.a1]).2
    = Some (mkRow "a1" "u1" "p1" 80 "passed" 2 []).
Proof.
  apply (save_submission_overwrites_set_columns
           Scenario.a2 [excluded Scenario.a1] (excluded Scenario.a1)).
  - fits.
  - reflexivity.
  - left. reflexivity.
Defined.

(** The claim C5 as stated fails: a candidate that is applied and one that
    is discarded get the same result from [save_submission]. *)
Lemma applied_and_rejected_same_result :
  (save_submission Scenario.b1 [excluded Scenario.a2]).2 ≠ [excluded Scenario.a2]
  ∧ (save_submission Scenario.a3 [excluded Scenario.a2]).2 = [excluded Scenario.a2]
  ∧ (save_submission Scenario.b1 [excluded Scenario.a2]).1
    = (save_submission Scenario.a3 [excluded Scenario.a2]).1.
Proof. split_and!; [vm_compute; discriminate|reflexivity|reflexivity]. Qed.

(** C5, amended.  [save_submission] returns the one success result both
    when the candidate is applied (inserted, or written over the stored
    row: the statement affects one row and the table changes) and when it
    is discarded for not beating the stored row (the statement affects no
    row and the table is unchanged); the result does not tell the two
    apart.  A storage failure (a value that does not fit its column, the
    primary key refusing the insert) is returned as a failure result,
    which differs from success, and leaves the table unchanged. *)
Theorem save_submission_result (e : SubmissionEntry) (db : Table) :
  ((save_submission e db).1 = Success
   ∧ ((execute_insert (excluded e) db = RowCount 1 (save_submission e db).2
       ∧ (save_submission e db).2 ≠ db)
      ∨ (execute_insert (excluded e) db = RowCount 0 (save_submission e db).2
         ∧ (save_submission e db).2 = db)))
  ∨ (∃ err, execute_insert (excluded e) db = Raised err
            ∧ save_submission e db = (Failure err, db)
            ∧ Failure err ≠ Success).
Proof.
  destruct (save_submission_values e db)
    as [(err & _ & Hex & Hsave)|(new & _ & _ & _ & _ & Hex)]; [right; by exists err|].
  unfold save_submission. rewrite Hex.
  destruct (insert_on_conflict_cases new db)
    as [(_ & _ & ->)|[(_ & _ & ->)|[(i & old & Hf & Hb & ->)|(old & _ & _ & ->)]]];
    cbn [fst snd].
  - left. split; [done|]. left. split; [done|].
    intros Heq%(f_equal length). rewrite length_app in Heq. cbn in Heq. lia.
  - right. eauto.
  - left. split; [done|]. left. split; [done|].
    apply list_find_Some in Hf as (Hi & _ & _). by apply insert_update_changes.
  - left. split; [done|]. by right.
Qed.

(** ** Invariants of the table *)

(** C6.  Starting from the empty table, after any sequence of
    [save_submission] calls the table holds at most one row per
    (user_id, problem_id) pair, and every call preserves this. *)
Theorem save_submission_one_row_per_pair :
  (∀ entries, unique_user_problem (save_all entries []))
  ∧ (∀ e db, unique_user_problem db → unique_user_problem (save_submission e db).2).
Proof.
  split; [|apply save_submission_unique_user_problem].
  assert (∀ entries db, unique_user_problem db →
            unique_user_problem (save_all entries db)) as Hinv.
  { induction entries as [|e entries IH]; intros db Hdb; [done|].
    rewrite save_all_cons. by apply IH, save_submission_unique_user_problem. }
  intros entries. apply Hinv, NoDup_nil_2.
Qed.

Lemma save_submission_one_row_per_pair_witness :
  unique_user_problem (save_all [Scenario.b1; Scenario.b2; Scenario.c1] [])
  ∧ unique_user_problem (save_submission Scenario.c2 [excluded Scenario.c1]).2.
Proof.
  split.
  - apply (proj1 save_submission_one_row_per_pair).
  - apply (proj2 save_submission_one_row_per_pair).
    apply NoDup_singleton.
Defined.

(** X1.  Starting from the empty table, after any sequence of
    [save_submission] calls no two rows of the table share an [id]. *)
Theorem save_all_primary_key :
  ∀ entries, primary_key (save_all entries []).
Proof.
  assert (∀ entries db, primary_key db → primary_key (save_all entries db)) as Hinv.
  { induction entries as [|e entries IH]; intros db Hdb; [done|].
    rewrite save_all_cons. by apply IH, save_submission_primary_key. }
  intros entries. apply Hinv, NoDup_nil_2.
Qed.

(** X2.  A candidate whose values fit the columns, for a pair with no
    stored row, and whose [submission_id] is already the [id] of a stored
    row is refused by the primary key: [save_submission] returns the
    failure result and the table stays as it was. *)
Theorem save_submission_duplicate_id (e : SubmissionEntry) (db : Table) :
  fits_columns (excluded e) →
  stored (key (excluded e)) db = None →
  submission_id e ∈ (sub_id <$> db) →
  save_submission e db = (Failure (UniqueViolation "submissions_pkey"), db).
Proof.
  intros Hfits Hs Hid. unfold save_submission.
  by rewrite execute_insert_fits,
       (insert_on_conflict_duplicate_id (excluded e) db Hs Hid).
Qed.

Lemma save_submission_duplicate_id_witness :
  save_submission Scenario.a1_reused [excluded Scenario.a1]
  = (Failure (UniqueViolation "submissions_pkey"), [excluded Scenario.a1]).
Proof.
  apply (save_submission_duplicate_id Scenario.a1_reused [excluded Scenario.a1]).
  - fits.
  - reflexivity.
  - cbn. apply list_elem_of_here.
Defined.

(** Values that do not go into their columns are refused; spaces past
    the width of a column are cut, so the row is stored under a [user_id]
    that is not the candidate's. *)
Example value_too_long_refused :
  save_submission Scenario.long_user [] = (Failure DataError, [])
  ∧ save_submission Scenario.too_high [] = (Failure DataError, []).
Proof. split; reflexivity. Qed.

Example spaces_past_the_column_cut :
  (save_submission Scenario.spaced_user []).1 = Success
  ∧ user_id <$> (save_submission Scenario.spaced_user []).2 = [Scenario.fifty]
  ∧ entry_user_id Scenario.spaced_user ≠ Scenario.fifty.
Proof. split_and!; [reflexivity..|]. vm_compute. discriminate. Qed.

(** C7.  A candidate that does not beat a stored row (a lower score, or
    the same score with a later or equal timestamp) leaves that row
    exactly as it is, whatever the call returns; and through any sequence
    of calls a stored row stays stored and is at every time either the row
    it was or a strictly better one. *)
Theorem save_submission_no_regression :
  (∀ e db k old,
     stored k db = Some old →
     (score (excluded e) < score old)%Z
     ∨ (score (excluded e) = score old ∧ (timestamp old ≤ timestamp (excluded e))%Z) →
     stored k (save_submission e db).2 = Some old)
  ∧ (∀ entries db k old,
       stored k db = Some old →
       ∃ r, stored k (save_all entries db) = Some r
            ∧ (r = old ∨ strictly_better r old)).
Proof.
  split.
  - intros e db k old Hs Hworse.
    destruct (save_submission_improves e db k old Hs) as (r & Hr & _ & Hkeep & _).
    rewrite Hr, Hkeep; [done|]. unfold strictly_better. lia.
  - induction entries as [|e entries IH]; intros db k old Hs; [eauto|].
    rewrite save_all_cons.
    destruct (save_submission_improves e db k old Hs) as (r & Hr & Himp & _).
    destruct (IH _ k r Hr) as (r' & Hr' & Himp').
    exists r'. split; [done|].
    destruct Himp as [->|Hb]; [done|]. right.
    destruct Himp' as [->|Hb']; [done|]. by eapply strictly_better_trans.
Qed.

Lemma save_submission_no_regression_witness :
  stored ("u1", "p1") (save_submission Scenario.a3 [excluded Scenario.a2]).2
    = Some (excluded Scenario.a2)
  ∧ ∃ r, stored ("u1", "p1") (save_all [Scenario.a2; Scenario.a3] [excluded Scenario.a1])
         = Some r
         ∧ (r = excluded Scenario.a1 ∨ strictly_better r (excluded Scenario.a1)).
Proof.
  split.
  - apply (proj1 save_submission_no_regression).
    + reflexivity.
    + right. cbn. lia.
  - apply (proj2 save_submission_no_regression). reflexivity.
Defined.

(** After a successful call the table holds, for the pair of the row the
    call proposed, a row that the candidate does not beat. *)
Lemma save_submission_then_stored e db :
  (save_submission e db).1 = Success →
  ∃ new r, submission_values (excluded e) = inr new
           ∧ stored (key new) (save_submission e db).2 = Some r
           ∧ ¬ strictly_better new r
           ∧ ¬ strictly_better (excluded e) r.
Proof.
  destruct (save_submission_values e db)
    as [(err & _ & _ & ->)|(new & Hv & _ & Hscore & Htime & Hex)]; [done|].
  assert (∀ r, ¬ strictly_better new r → ¬ strictly_better (excluded e) r) as Hsame.
  { intros r. unfold strictly_better. cbn. by rewrite Hscore, Htime. }
  unfold save_submission. rewrite Hex.
  destruct (insert_on_conflict_cases new db)
    as [(Hs & _ & ->)|[(_ & _ & ->)|[(i & old & Hf & Hb & ->)|(old & Hs & Hb & ->)]]];
    cbn [fst snd]; intros Hok.
  - exists new, new. split_and!; [done| |apply strictly_better_irrefl|
                                 apply Hsame, strictly_better_irrefl].
    rewrite stored_app, Hs. by rewrite decide_True.
  - discriminate.
  - assert (¬ strictly_better new (do_update_set new old)) as Hnb
      by (unfold strictly_better; cbn; lia).
    exists new, (do_update_set new old). split_and!; [done| |done|by apply Hsame].
    apply (stored_insert_same db _ i old); [done|].
    by apply list_find_Some in Hf as (_ & ? & _).
  - exists new, old. split_and!; [done..|by apply Hsame].
Qed.

Lemma save_submission_failure e db err :
  (save_submission e db).1 = Failure err →
  save_submission e db = (Failure err, db).
Proof.
  unfold save_submission.
  destruct (execute_insert (excluded e) db); cbn [fst]; congruence.
Qed.

(** The claim C8 as stated fails: a candidate that the primary key
    refused is refused again, so its second application ends in the
    failure result; and the second application of a candidate that was
    inserted returns the very result of the first, the one of an applied
    call. *)
Lemma second_application_not_rejected :
  save_submission Scenario.a1_reused [excluded Scenario.a1]
    = (Failure (UniqueViolation "submissions_pkey"), [excluded Scenario.a1])
  ∧ save_submission Scenario.a1_reused
      (save_submission Scenario.a1_reused [excluded Scenario.a1]).2
    = (Failure (UniqueViolation "submissions_pkey"), [excluded Scenario.a1])
  ∧ (save_submission Scenario.a1 []).2 = [excluded Scenario.a1]
  ∧ (save_submission Scenario.a1 (save_submission Scenario.a1 []).2).1
    = (save_submission Scenario.a1 []).1.
Proof. split_and!; reflexivity. Qed.

(** C8, amended.  Applying the same candidate a second time never changes
    the table.  When the first application succeeded, the statement of
    the second affects no row and the call returns the success result,
    the same that an applied call returns; when the first application
    failed, the second fails with the same error. *)
Theorem save_submission_twice (e : SubmissionEntry) (db : Table) :
  (save_submission e (save_submission e db).2).2 = (save_submission e db).2
  ∧ ((save_submission e db).1 = Success →
     execute_insert (excluded e) (save_submission e db).2
       = RowCount 0 (save_submission e db).2
     ∧ save_submission e (save_submission e db).2
       = (Success, (save_submission e db).2))
  ∧ (∀ err, (save_submission e db).1 = Failure err →
       save_submission e (save_submission e db).2 = (Failure err, db)).
Proof.
  destruct (save_submission e db).1 as [|err] eqn:Hres.
  - destruct (save_submission_then_stored e db Hres) as (new & r & Hv & Hs & Hb & _).
    assert (execute_insert (excluded e) (save_submission e db).2
            = RowCount 0 (save_submission e db).2) as Hex.
    { unfold execute_insert at 1. rewrite Hv. by apply (insert_on_conflict_skip _ _ r). }
    assert (save_submission e (save_submission e db).2
            = (Success, (save_submission e db).2)) as Hsave.
    { unfold save_submission at 1. by rewrite Hex. }
    rewrite Hsave. by split_and!.
  - rewrite (save_submission_failure e db err Hres). cbn [snd].
    rewrite (save_submission_failure e db err Hres).
    split_and!; [done|discriminate|]. by intros err' [= <-].
Qed.

Lemma save_submission_twice_witness :
  (save_submission Scenario.a1 (save_submission Scenario.a1 []).2).2
    = (save_submission Scenario.a1 []).2
  ∧ save_submission Scenario.a1 (save_submission Scenario.a1 []).2
    = (Success, (save_submission Scenario.a1 []).2)
  ∧ save_submission Scenario.a1_reused
      (save_submission Scenario.a1_reused [excluded Scenario.a1]).2
    = (Failure (UniqueViolation "submissions_pkey"), [excluded Scenario.a1]).
Proof.
  destruct (save_submission_twice Scenario.a1 []) as (Hsame & Hrej & _).
  destruct (save_submission_twice Scenario.a1_reused [excluded Scenario.a1])
    as (_ & _ & Hfail).
  split_and!; [exact Hsame|apply Hrej; reflexivity|apply Hfail; reflexivity].
Defined.

(** ** Candidates for one pair, applied in any order *)

Lemma key_merge e r : key (merge e r) = key r.
Proof. unfold merge. by destruct (where_clause _ _). Qed.

Lemma on_conflict_app_last new db r :
  (key new ∉ (key <$> db)) → key r = key new →
  on_conflict new (db ++ [r]) =
  Some (if where_clause new r
        then (1, db ++ [do_update_set new r])
        else (0, db ++ [r])).
Proof.
  intros Hnew Hr. induction db as [|x db IH]; cbn.
  - rewrite decide_True by done. by destruct (where_clause new r).
  - rewrite fmap_cons, not_elem_of_cons in Hnew. destruct Hnew as [Hx Hdb].
    rewrite decide_False by done. rewrite (IH Hdb).
    by destruct (where_clause new r).
Qed.

Lemma save_submission_same_pair e db r :
  fits_columns (excluded e) →
  (key r ∉ (key <$> db)) → key (excluded e) = key r →
  save_submission e (db ++ [r]) = (Success, db ++ [merge e r]).
Proof.
  intros Hfits Hr He. unfold save_submission. rewrite execute_insert_fits by done.
  unfold insert_on_conflict, merge.
  rewrite on_conflict_app_last by (by rewrite ?He).
  by destruct (where_clause (excluded e) r).
Qed.

Lemma save_all_same_pair entries db r :
  (∀ e, e ∈ entries → fits_columns (excluded e)) →
  (key r ∉ (key <$> db)) →
  (∀ e, e ∈ entries → key (excluded e) = key r) →
  save_all entries (db ++ [r]) = db ++ [merge_all entries r].
Proof.
  revert r. induction entries as [|e entries IH]; intros r Hfits Hr Hall; [done|].
  rewrite save_all_cons, save_submission_same_pair
    by auto using list_elem_of_here.
  cbn [snd]. rewrite IH; [done|auto using list_elem_of_further|by rewrite key_merge|].
  intros e' He'. rewrite key_merge. auto using list_elem_of_further.
Qed.

Lemma merge_not_better e r :
  ¬ strictly_better r (merge e r) ∧ ¬ strictly_better (excluded e) (merge e r).
Proof.
  unfold merge. destruct (where_clause (excluded e) r) eqn:Hw.
  - apply where_clause_true in Hw. revert Hw.
    unfold strictly_better, do_update_set. cbn. lia.
  - apply where_clause_false in Hw. split; [apply strictly_better_irrefl|done].
Qed.

(** The row left by a run on one pair: the first row with the SET columns
    of a candidate that none of the run beats. *)
Lemma merge_all_spec entries r :
  ¬ strictly_better r (merge_all entries r)
  ∧ (∀ e, e ∈ entries → ¬ strictly_better (excluded e) (merge_all entries r))
  ∧ (merge_all entries r = r
     ∨ ∃ m, m ∈ entries ∧ merge_all entries r = do_update_set (excluded m) r).
Proof.
  revert r. induction entries as [|e entries IH]; intros r; cbn.
  - split_and!; [apply strictly_better_irrefl|by intros ? ?%elem_of_nil|by left].
  - destruct (IH (merge e r)) as (Hr & Hall & Hshape).
    fold (merge_all entries (merge e r)) in *.
    destruct (merge_not_better e r) as [Hr1 He1].
    split_and!.
    + by eapply not_better_trans.
    + intros e' [->|He']%elem_of_cons; [by eapply not_better_trans|auto].
    + destruct Hshape as [->|(m & Hm & ->)].
      * unfold merge. destruct (where_clause (excluded e) r); [|by left].
        right. exists e. split; [apply list_elem_of_here|done].
      * right. unfold merge. destruct (where_clause (excluded e) r).
        -- exists m. split; [by apply list_elem_of_further|done].
        -- exists m. split; [by apply list_elem_of_further|done].
Qed.

Lemma do_update_set_self r : do_update_set r r = r.
Proof. by destruct r. Qed.

(** A run of candidates for one pair, on a table with no row for it. *)
Lemma save_all_one_pair entries e0 db k :
  head entries = Some e0 →
  (∀ e, e ∈ entries → fits_columns (excluded e)) →
  (∀ e, e ∈ entries → key (excluded e) = k) →
  stored k db = None →
  (submission_id e0 ∉ (sub_id <$> db)) →
  ∃ m, maximal m entries
       ∧ save_all entries db = db ++ [do_update_set (excluded m) (excluded e0)].
Proof.
  destruct entries as [|e rest]; [done|]. intros [= ->] Hfits Hkey Hs Hid.
  assert (key (excluded e0) = k) as Hk0 by auto using list_elem_of_here.
  rewrite save_all_cons, save_submission_new
    by (rewrite ?Hk0; auto using list_elem_of_here).
  cbn [snd]. rewrite save_all_same_pair; last first.
  { intros e He. rewrite Hk0. auto using list_elem_of_further. }
  { rewrite Hk0. by apply stored_None. }
  { auto using list_elem_of_further. }
  destruct (merge_all_spec rest (excluded e0)) as (H0 & Hall & [Heq|(m & Hm & Heq)]);
    rewrite Heq in *.
  - exists e0. rewrite do_update_set_self. split; [|done].
    split; [apply list_elem_of_here|].
    intros e [->|He]%elem_of_cons; [apply strictly_better_irrefl|auto].
  - exists m. split; [|done]. split; [by apply list_elem_of_further|].
    intros e He. assert (¬ strictly_better (excluded e)
                           (do_update_set (excluded m) (excluded e0))) as Hnb.
    { apply elem_of_cons in He as [->|He]; auto. }
    unfold strictly_better in *. cbn in *. lia.
Qed.

Lemma maximal_score_timestamp m m' entries entries' :
  entries ≡ₚ entries' → maximal m entries → maximal m' entries' →
  entry_score m = entry_score m' ∧ entry_timestamp m = entry_timestamp m'.
Proof.
  intros Hp [Hm Hmax] [Hm' Hmax'].
  apply (not_better_antisym (excluded m) (excluded m')).
  - apply Hmax'. by rewrite <-Hp.
  - apply Hmax. by rewrite Hp.
Qed.

(** The claim C3 as stated fails: the two orders of scenario C leave
    different rows, neither of them the maximal candidate in the first
    order; and two candidates that tie leave the one applied first. *)
Lemma final_row_depends_on_order :
  save_all [Scenario.c1; Scenario.c2] [] ≠ save_all [Scenario.c2; Scenario.c1] []
  ∧ stored ("u2", "p1") (save_all [Scenario.c1; Scenario.c2] [])
    = Some (mkRow "c1" "u2" "p1" 60 "passed" 3 [])
  ∧ stored ("u2", "p1") (save_all [Scenario.c2; Scenario.c1] [])
    = Some (mkRow "c2" "u2" "p1" 60 "passed" 3 [])
  ∧ replay_result <$> stored ("u3", "p1") (save_all [Scenario.d1; Scenario.d2] [])
    = Some "passed"
  ∧ replay_result <$> stored ("u3", "p1") (save_all [Scenario.d2; Scenario.d1] [])
    = Some "timeout".
Proof. split_and!; [vm_compute; discriminate|reflexivity..]. Qed.

(** C3, amended.  For candidates for one (user_id, problem_id) pair
    whose values fit the columns, applied one after another in any order
    to a table with no row for the pair (and none of their ids): the row
    left carries the score and the timestamp of a candidate that is
    maximal under the ordering, the same score and timestamp in every
    order, with that candidate's [replay_result] and [error_details]; its
    [id] is the one of the candidate applied first. *)
Theorem save_all_any_order
    (entries entries' : list SubmissionEntry) (e0 e0' : SubmissionEntry)
    (db : Table) (k : string * string) :
  head entries = Some e0 →
  head entries' = Some e0' →
  entries ≡ₚ entries' →
  (∀ e, e ∈ entries → fits_columns (excluded e)) →
  (∀ e, e ∈ entries → key (excluded e) = k) →
  stored k db = None →
  (∀ e, e ∈ entries → submission_id e ∉ (sub_id <$> db)) →
  ∃ m m',
    maximal m entries ∧ maximal m' entries
    ∧ stored k (save_all entries db)
      = Some (do_update_set (excluded m) (excluded e0))
    ∧ stored k (save_all entries' db)
      = Some (do_update_set (excluded m') (excluded e0'))
    ∧ entry_score m = entry_score m'
    ∧ entry_timestamp m = entry_timestamp m'.
Proof.
  intros Hh Hh' Hp Hfits Hkey Hs Hid.
  assert (e0 ∈ entries) as Hin by (destruct entries; simplify_eq/=; left).
  assert (e0' ∈ entries) as Hin'.
  { rewrite Hp. destruct entries'; simplify_eq/=; left. }
  destruct (save_all_one_pair entries e0 db k) as (m & Hm & ->); auto.
  destruct (save_all_one_pair entries' e0' db k) as (m' & Hm' & ->); auto.
  { intros e He. apply Hfits. by rewrite Hp. }
  { intros e He. apply Hkey. by rewrite Hp. }
  destruct (maximal_score_timestamp m m' entries entries') as [? ?]; auto.
  exists m, m'. split_and!; auto.
  - destruct Hm' as [Hm' Hmax']. split; [by rewrite Hp|].
    intros e He. apply Hmax'. by rewrite <-Hp.
  - rewrite stored_app, Hs. rewrite decide_True; [done|].
    rewrite key_do_update_set. auto.
  - rewrite stored_app, Hs. rewrite decide_True; [done|].
    rewrite key_do_update_set. auto.
Qed.

Lemma save_all_any_order_witness :
  ∃ m m',
    maximal m [Scenario.c1; Scenario.c2] ∧ maximal m' [Scenario.c1; Scenario.c2]
    ∧ stored ("u2", "p1") (save_all [Scenario.c1; Scenario.c2] [])
      = Some (do_update_set (excluded m) (excluded Scenario.c1))
    ∧ stored ("u2", "p1") (save_all [Scenario.c2; Scenario.c1] [])
      = Some (do_update_set (excluded m') (excluded Scenario.c2))
    ∧ entry_score m = entry_score m'
    ∧ entry_timestamp m = entry_timestamp m'.
Proof.
  apply (save_all_any_order [Scenario.c1; Scenario.c2] [Scenario.c2; Scenario.c1]).
  - reflexivity.
  - reflexivity.
  - apply Permutation_swap.
  - intros e [->|[->|[]%elem_of_nil]%elem_of_cons]%elem_of_cons; fits.
  - intros e [->|[->|[]%elem_of_nil]%elem_of_cons]%elem_of_cons; reflexivity.
  - reflexivity.
  - intros e _. cbn. apply not_elem_of_nil.
Defined.

(** ** The leaderboard query *)

Lemma order_by_not_better r r' :
  order_by (select_list r) (select_list r') ↔ ¬ strictly_better r' r.
Proof. unfold order_by, score_desc_timestamp_asc, strictly_better. cbn. lia. Qed.

(** Under the UNIQUE constraint every partition of the window holds one
    row, which gets the number 1. *)
Lemma row_number_unique t i r :
  unique_user_problem t → t !! i = Some r → row_number t i r = 1.
Proof.
  intros Hnd Hi. unfold row_number. f_equal. apply length_zero_iff_nil.
  apply elem_of_nil_inv. intros [j y].
  rewrite list_elem_of_filter, elem_of_lookup_imap. cbn.
  intros ((Hk & Hbefore & Hlast) & (j' & y' & [= <- <-] & Hj)).
  assert (j = i) as ->.
  { apply (NoDup_lookup (key <$> t) j i (key r)); [done|..];
      rewrite list_lookup_fmap; [rewrite Hj|rewrite Hi]; cbn; congruence. }
  assert (y = r) as -> by congruence.
  unfold score_desc_timestamp_asc in Hlast. cbn in Hlast. lia.
Qed.

Lemma where_rn_1_unique t :
  unique_user_problem t → where_rn_1 t = select_list <$> t.
Proof.
  intros Hnd. unfold where_rn_1, subquery.
  rewrite (imap_ext _ (λ _ r, (r, 1)) t); last first.
  { intros i r Hi. by rewrite row_number_unique. }
  generalize t as l. induction l as [|x l IH]; [done|].
  rewrite imap_cons, filter_cons_True by done. cbn. f_equal. apply IH.
Qed.

Lemma fetchall_query_result t : query_result t (fetchall t).
Proof.
  split; [apply merge_sort_Permutation|apply Sorted_merge_sort, _].
Qed.

(** The rows of an answer are the rows of the table. *)
Lemma query_result_elem_of t rows e :
  unique_user_problem t → query_result t rows →
  e ∈ rows ↔ ∃ r, r ∈ t ∧ e = select_list r.
Proof.
  intros Hnd [Hp _]. rewrite Hp, where_rn_1_unique, list_elem_of_fmap by done.
  split; intros (r & ? & ?); eauto.
Qed.

(** ** The loop over the answer *)

Lemma for_entry_first_per_user rows leaderboard seen :
  for_entry rows leaderboard seen
  = leaderboard ++ (dict <$> first_per_user rows seen).
Proof.
  revert leaderboard seen.
  induction rows as [|entry rest IH]; intros leaderboard seen; cbn.
  - by rewrite app_nil_r.
  - case_decide; [apply IH|]. rewrite IH, <-app_assoc. done.
Qed.

Lemma first_per_user_elem_of rows seen e :
  e ∈ first_per_user rows seen → e ∈ rows ∧ q_user_id e ∉ seen.
Proof.
  revert seen. induction rows as [|x rest IH]; intros seen; cbn.
  - by intros ?%elem_of_nil.
  - case_decide.
    + intros [? ?]%IH. split; [by right|done].
    + intros [->|[? Hseen]%IH]%elem_of_cons; [split; [left|done]|].
      split; [by right|]. intros ?. apply Hseen, elem_of_union. by left.
Qed.

Lemma first_per_user_users rows seen u :
  u ∈ (q_user_id <$> first_per_user rows seen)
  ↔ u ∈ (q_user_id <$> rows) ∧ u ∉ seen.
Proof.
  revert seen. induction rows as [|x rest IH]; intros seen; cbn.
  - rewrite elem_of_nil. tauto.
  - case_decide as Hx; rewrite ?fmap_cons, !elem_of_cons, IH.
    + split; [tauto|]. intros [[->|?] ?]; [done|tauto].
    + rewrite not_elem_of_union, not_elem_of_singleton.
      destruct (decide (u = q_user_id x)) as [->|]; tauto.
Qed.

Lemma first_per_user_NoDup rows seen :
  NoDup (q_user_id <$> first_per_user rows seen).
Proof.
  revert seen. induction rows as [|x rest IH]; intros seen; cbn.
  - apply NoDup_nil_2.
  - case_decide; [apply IH|]. rewrite fmap_cons. apply NoDup_cons_2; [|apply IH].
    rewrite first_per_user_users, not_elem_of_union, not_elem_of_singleton. tauto.
Qed.

Lemma first_per_user_StronglySorted rows seen :
  StronglySorted order_by rows →
  StronglySorted order_by (first_per_user rows seen).
Proof.
  intros Hs. revert seen.
  induction Hs as [|x rest Hs IH Hx]; intros seen; cbn; [constructor|].
  case_decide; [apply IH|]. constructor; [apply IH|].
  apply Forall_forall. intros e [He _]%first_per_user_elem_of.
  by eapply Forall_forall in Hx.
Qed.

(** A kept row stands before every row of the same user. *)
Lemma first_per_user_first rows seen e r :
  StronglySorted order_by rows →
  e ∈ first_per_user rows seen → r ∈ rows → q_user_id r = q_user_id e →
  order_by e r.
Proof.
  intros Hs. revert seen.
  induction Hs as [|x rest Hs IH Hx]; intros seen; cbn.
  - by intros ?%elem_of_nil.
  - rewrite Forall_forall in Hx. case_decide as Hseen.
    + intros He [->|Hr]%elem_of_cons Hu; [|by eapply IH].
      apply first_per_user_elem_of in He as [_ He]. congruence.
    + intros [->|He]%elem_of_cons [->|Hr]%elem_of_cons Hu;
        [reflexivity|auto| |by eapply IH].
      apply first_per_user_elem_of in He as [_ He].
      rewrite not_elem_of_union, not_elem_of_singleton in He. by destruct He.
Qed.

Lemma dict_user_id e : dict e !! "user_id" = Some (Str (q_user_id e)).
Proof. reflexivity. Qed.

Lemma dict_dom e : dom (dict e) = leaderboard_fields.
Proof.
  unfold dict, leaderboard_fields.
  rewrite !dom_insert_L, dom_empty_L. set_solver.
Qed.

Lemma dict_no_error_details e : dict e !! "error_details" = None.
Proof. reflexivity. Qed.

(** ** The leaderboard *)

Lemma leaderboard_of_ranks db rows :
  unique_user_problem db → query_result db rows →
  ranks_best_per_user db (leaderboard_of rows).
Proof.
  intros Hnd Hq. exists (first_per_user rows ∅).
  pose proof Hq as [Hp Hsorted].
  apply (Sorted_StronglySorted _) in Hsorted.
  split_and!.
  - unfold leaderboard_of. by rewrite for_entry_first_per_user.
  - apply first_per_user_NoDup.
  - intros u. rewrite first_per_user_users, Hp, where_rn_1_unique by done.
    rewrite <-list_fmap_compose. split; [tauto|]. split; [done|apply not_elem_of_empty].
  - intros e He. pose proof He as [Hin _]%first_per_user_elem_of.
    apply (query_result_elem_of db rows e Hnd Hq) in Hin as (r & Hr & ->).
    exists r. split_and!; [done..|]. intros r' Hr' Hu.
    apply order_by_not_better.
    apply (first_per_user_first rows ∅); [done..| |by cbn].
    apply (query_result_elem_of db rows _ Hnd Hq). eauto.
  - apply StronglySorted_Sorted.
    by apply first_per_user_StronglySorted.
Qed.



(** Scenario B: one entry for [u1], with the score 90 of its best row. *)
Example scenario_B :
  get_leaderboard_data (save_all [Scenario.b1; Scenario.b2] [])
  = Leaderboard [dict (mkQueryRow "b1" "u1" "p1" 90 "passed" 1)].
Proof. reflexivity. Qed.

(** Scenario A: 50 then 80 stores 80; a later 80 is discarded. *)
Example scenario_A :
  save_all [Scenario.a1; Scenario.a2] [] = [mkRow "a1" "u1" "p1" 80 "passed" 2 []]
  ∧ save_submission Scenario.a3 (save_all [Scenario.a1; Scenario.a2] [])
    = (Success, [mkRow "a1" "u1" "p1" 80 "passed" 2 []]).
Proof. split; reflexivity. Qed.

(** C9.  The leaderboard never holds two entries with the same user
    identity, whatever rows the loop is given, and so for every table. *)
Theorem leaderboard_users_unique :
  (∀ rows, ∃ leaderboard,
      leaderboard_of rows = Leaderboard leaderboard
      ∧ NoDup ((λ d : gmap string Value, d !! "user_id") <$> leaderboard))
  ∧ (∀ db, ∃ leaderboard,
      get_leaderboard_data db = Leaderboard leaderboard
      ∧ NoDup ((λ d : gmap string Value, d !! "user_id") <$> leaderboard)).
Proof.
  assert (∀ rows, ∃ leaderboard,
      leaderboard_of rows = Leaderboard leaderboard
      ∧ NoDup ((λ d : gmap string Value, d !! "user_id") <$> leaderboard)) as Hloop.
  { intros rows. exists (dict <$> first_per_user rows ∅). split.
    - unfold leaderboard_of. by rewrite for_entry_first_per_user.
    - rewrite <-list_fmap_compose.
      rewrite (list_fmap_ext _ (Some ∘ Str ∘ q_user_id) (first_per_user rows ∅))
        by (intros; apply dict_user_id).
      rewrite list_fmap_compose. apply (NoDup_fmap_2 _).
      apply first_per_user_NoDup. }
  split; [exact Hloop|]. intros db. apply Hloop.
Qed.

(** C10.  Every entry of the leaderboard has exactly the keys [id],
    [user_id], [problem_id], [score], [replay_result] and [timestamp];
    [error_details] is not among them. *)
Theorem leaderboard_entry_fields :
  (∀ rows, ∃ leaderboard,
      leaderboard_of rows = Leaderboard leaderboard
      ∧ Forall (λ d : gmap string Value,
                  dom d = leaderboard_fields ∧ d !! "error_details" = None)
               leaderboard)
  ∧ (∀ db, ∃ leaderboard,
      get_leaderboard_data db = Leaderboard leaderboard
      ∧ Forall (λ d : gmap string Value,
                  dom d = leaderboard_fields ∧ d !! "error_details" = None)
               leaderboard).
Proof.
  assert (∀ rows, ∃ leaderboard,
      leaderboard_of rows = Leaderboard leaderboard
      ∧ Forall (λ d : gmap string Value,
                  dom d = leaderboard_fields ∧ d !! "error_details" = None)
               leaderboard) as Hloop.
  { intros rows. exists (dict <$> first_per_user rows ∅). split.
    - unfold leaderboard_of. by rewrite for_entry_first_per_user.
    - apply Forall_fmap, Forall_forall. intros e _. cbn.
      split; [apply dict_dom|apply dict_no_error_details]. }
  split; [exact Hloop|]. intros db. apply Hloop.
Qed.

(** ** Saving, then reading the leaderboard *)

Lemma leaderboard_inj (kept kept' : list QueryRow) :
  Leaderboard (dict <$> kept) = Leaderboard (dict <$> kept') → kept = kept'.
Proof. intros [= Heq]. by apply (inj (fmap dict)) in Heq. Qed.

(** In a leaderboard every user with a stored row has an entry that none
    of the user's rows beats. *)
Lemma ranks_entry_of_row db result r :
  ranks_best_per_user db result → r ∈ db →
  ∃ kept q, result = Leaderboard (dict <$> kept) ∧ q ∈ kept
            ∧ q_user_id q = user_id r ∧ order_by q (select_list r).
Proof.
  intros (kept & -> & _ & Husers & Hbest & _) Hr.
  assert (user_id r ∈ (q_user_id <$> kept)) as (q & Hu & Hq)%list_elem_of_fmap.
  { apply Husers, list_elem_of_fmap. eauto. }
  destruct (Hbest q Hq) as (r0 & Hr0 & -> & Hmax).
  exists kept, (select_list r0). split_and!; [done..|].
  apply order_by_not_better, Hmax; [done|]. by rewrite Hu.
Qed.

(** A stored row has its user on the leaderboard, with an entry that
    stands no later than the row. *)
Lemma stored_row_on_leaderboard (db : Table) (r : Row) :
  unique_user_problem db → r ∈ db →
  ∃ kept q,
    get_leaderboard_data db = Leaderboard (dict <$> kept)
    ∧ q ∈ kept ∧ q_user_id q = user_id r ∧ order_by q (select_list r).
Proof.
  intros Hnd Hr. apply (ranks_entry_of_row db); [|done].
  apply leaderboard_of_ranks; [done|apply fetchall_query_result].
Qed.

(** X3.  After a successful [save_submission] on a table with one row
    per pair, the leaderboard has an entry for the candidate's user: for
    the [user_id] as the column stores it, which is the candidate's
    [user_id] when that has at most 50 characters.  The candidate does not
    beat this entry: the entry's score is at least the candidate's, and
    with the same score its timestamp is not later. *)
Theorem save_submission_then_leaderboard (e : SubmissionEntry) (db : Table) :
  unique_user_problem db →
  (save_submission e db).1 = Success →
  ∃ kept q,
    get_leaderboard_data (save_submission e db).2 = Leaderboard (dict <$> kept)
    ∧ q ∈ kept
    ∧ varchar 50 (entry_user_id e) = Some (q_user_id q)
    ∧ ((String.length (entry_user_id e) ≤ 50)%nat → q_user_id q = entry_user_id e)
    ∧ ((entry_score e < q_score q)%Z
       ∨ (q_score q = entry_score e ∧ (q_timestamp q ≤ entry_timestamp e)%Z)).
Proof.
  intros Hnd Hok.
  destruct (save_submission_then_stored e db Hok) as (new & r & Hv & Hs & _ & Hnb).
  apply stored_key in Hs as [Hk Hr]. apply submission_values_user in Hv.
  destruct (stored_row_on_leaderboard (save_submission e db).2 r)
    as (kept & q & Hres & Hq & Hu & Hord);
    [by apply save_submission_unique_user_problem|done|].
  assert (varchar 50 (entry_user_id e) = Some (q_user_id q)) as Huser.
  { rewrite Hu. injection Hk as -> _. exact Hv. }
  exists kept, q. split_and!; [done..| |].
  - intros Hlen. rewrite varchar_fits in Huser by done. by injection Huser.
  - revert Hord Hnb. unfold order_by, score_desc_timestamp_asc, strictly_better.
    cbn. lia.
Qed.

Lemma save_submission_then_leaderboard_witness :
  ∃ kept q,
    get_leaderboard_data (save_submission Scenario.a3 [excluded Scenario.a2]).2
      = Leaderboard (dict <$> kept)
    ∧ q ∈ kept
    ∧ q_user_id q = "u1"
    ∧ ((80 < q_score q)%Z ∨ (q_score q = 80%Z ∧ (q_timestamp q ≤ 3)%Z)).
Proof.
  destruct (save_submission_then_leaderboard Scenario.a3 [excluded Scenario.a2])
    as (kept & q & Hkept & Hq & _ & Hu & Hord).
  - apply NoDup_singleton.
  - reflexivity.
  - exists kept, q. split_and!; [exact Hkept|exact Hq| |exact Hord].
    apply Hu. cbn. lia.
Defined.

(** X4.  Whatever order the engine gives to rows that tie, the first
    entry of the leaderboard is not beaten by any stored row (it holds the
    highest score of the table, at the earliest time that score was
    reached), and the leaderboard is empty only for the empty table. *)
Theorem leaderboard_first_is_best
    (db : Table) (rows kept : list QueryRow) :
  unique_user_problem db →
  query_result db rows →
  leaderboard_of rows = Leaderboard (dict <$> kept) →
  (kept = [] ↔ db = [])
  ∧ ∀ top r, head kept = Some top → r ∈ db →
      (score r < q_score top)%Z
      ∨ (q_score top = score r ∧ (q_timestamp top ≤ timestamp r)%Z).
Proof.
  intros Hnd Hq Hres.
  pose proof (leaderboard_of_ranks db rows Hnd Hq) as Hranks.
  split.
  - destruct Hranks as (kept' & Hres' & _ & Husers & _).
    rewrite Hres in Hres'. apply leaderboard_inj in Hres' as <-.
    split; intros ->.
    + destruct db as [|r db]; [done|]. exfalso.
      apply (elem_of_nil (user_id r)), (Husers (user_id r)). left.
    + destruct kept as [|q kept]; [done|]. exfalso.
      apply (elem_of_nil (q_user_id q)), (Husers (q_user_id q)). left.
  - intros top r Htop Hr.
    destruct (ranks_entry_of_row db _ r Hranks Hr) as (kept' & q & Hres' & Hq' & _ & Hord).
    rewrite Hres in Hres'. apply leaderboard_inj in Hres' as <-.
    destruct Hranks as (kept' & Hres' & _ & _ & _ & Hsorted).
    rewrite Hres in Hres'. apply leaderboard_inj in Hres' as <-.
    apply (Sorted_StronglySorted _) in Hsorted.
    assert (order_by top (select_list r)) as Hfinal.
    { destruct kept as [|x kept]; simplify_eq/=.
      apply elem_of_cons in Hq' as [->|Hq']; [done|].
      apply StronglySorted_inv in Hsorted as [_ Hall].
      rewrite Forall_forall in Hall. by etrans; [apply Hall|]. }
    revert Hfinal. unfold order_by, score_desc_timestamp_asc. cbn. lia.
Qed.

Lemma leaderboard_first_is_best_witness :
  ([mkQueryRow "b1" "u1" "p1" 90 "passed" 1] = [] ↔
     save_all [Scenario.b1; Scenario.b2] [] = [])
  ∧ ∀ top r,
      head [mkQueryRow "b1" "u1" "p1" 90 "passed" 1] = Some top →
      r ∈ save_all [Scenario.b1; Scenario.b2] [] →
      (score r < q_score top)%Z
      ∨ (q_score top = score r ∧ (q_timestamp top ≤ timestamp r)%Z).
Proof.
  apply (leaderboard_first_is_best
           (save_all [Scenario.b1; Scenario.b2] [])
           (fetchall (save_all [Scenario.b1; Scenario.b2] []))).
  - unfold unique_user_problem. apply (bool_decide_unpack _). vm_compute. exact I.
  - unfold query_result. apply (bool_decide_unpack _). vm_compute. exact I.
  - reflexivity.
Defined.

(** X5.  Two answers of the engine for the same table, which can differ
    in the order of rows that tie, give leaderboards of the same length
    in which every user has the same score and the same timestamp. *)
Theorem leaderboard_same_for_every_tie_order
    (db : Table) (rows rows' kept kept' : list QueryRow) :
  unique_user_problem db →
  query_result db rows →
  query_result db rows' →
  leaderboard_of rows = Leaderboard (dict <$> kept) →
  leaderboard_of rows' = Leaderboard (dict <$> kept') →
  length kept = length kept'
  ∧ ∀ q, q ∈ kept →
      ∃ q', q' ∈ kept' ∧ q_user_id q' = q_user_id q
            ∧ q_score q' = q_score q ∧ q_timestamp q' = q_timestamp q.
Proof.
  intros Hnd Hq Hq' Hres Hres'.
  destruct (leaderboard_of_ranks db rows Hnd Hq)
    as (k & Hk & Hndk & Husers & Hbest & _).
  rewrite Hres in Hk. apply leaderboard_inj in Hk as <-.
  destruct (leaderboard_of_ranks db rows' Hnd Hq')
    as (k' & Hk' & Hndk' & Husers' & Hbest' & _).
  rewrite Hres' in Hk'. apply leaderboard_inj in Hk' as <-.
  split.
  - rewrite <-(length_fmap q_user_id kept), <-(length_fmap q_user_id kept').
    apply Permutation_length, NoDup_Permutation; [done..|].
    intros u. by rewrite Husers, Husers'.
  - intros q Hin.
    assert (q_user_id q ∈ (q_user_id <$> kept')) as (q' & Hu & Hin')%list_elem_of_fmap.
    { apply Husers', Husers, list_elem_of_fmap. eauto. }
    destruct (Hbest q Hin) as (r & Hr & -> & Hmax).
    destruct (Hbest' q' Hin') as (r' & Hr' & -> & Hmax').
    cbn in Hu. exists (select_list r'). split_and!; [done|done|..];
      cbn; apply (not_better_antisym r' r); auto.
Qed.

Lemma leaderboard_same_for_every_tie_order_witness :
  length [select_list (excluded Scenario.t1)]
  = length [select_list (excluded Scenario.t2)]
  ∧ ∀ q, q ∈ [select_list (excluded Scenario.t1)] →
      ∃ q', q' ∈ [select_list (excluded Scenario.t2)]
            ∧ q_user_id q' = q_user_id q
            ∧ q_score q' = q_score q ∧ q_timestamp q' = q_timestamp q.
Proof.
  apply (leaderboard_same_for_every_tie_order
           (save_all [Scenario.t1; Scenario.t2] [])
           [select_list (excluded Scenario.t1); select_list (excluded Scenario.t2)]
           [select_list (excluded Scenario.t2); select_list (excluded Scenario.t1)]).
  - unfold unique_user_problem. apply (bool_decide_unpack _). vm_compute. exact I.
  - unfold query_result. apply (bool_decide_unpack _). vm_compute. exact I.
  - unfold query_result. apply (bool_decide_unpack _). vm_compute. exact I.
  - reflexivity.
  - reflexivity.
Defined.

(** ** UTF-8 and the 72-byte cut of passwords *)

Ltac divlia := Z.to_euclidean_division_equations; lia.

Lemma encode_char_length c cb :
  encode_char c = Some cb → (1 ≤ length cb ≤ 4)%nat.
Proof.
  unfold encode_char. repeat case_decide; intros [= <-]; cbn; lia.
Qed.

Lemma decode_encode_char c cb rest :
  encode_char c = Some cb →
  decode_utf8 (cb ++ rest) = cons c <$> decode_utf8 rest.
Proof.
  unfold encode_char.
  destruct (decide (0 ≤ c < 0x80)%Z) as [H1|H1].
  { intros [= <-]. cbn. by rewrite decide_True by done. }
  destruct (decide (0x80 ≤ c < 0x800)%Z) as [H2|H2].
  { intros [= <-]. cbn.
    rewrite decide_False by divlia. rewrite decide_True by divlia.
    rewrite decide_True by (unfold continuation; divlia).
    do 2 f_equal. divlia. }
  destruct (decide (0x800 ≤ c < 0xD800 ∨ 0xE000 ≤ c < 0x10000)%Z) as [H3|H3].
  { intros [= <-]. cbn.
    rewrite decide_False by divlia. rewrite decide_False by divlia.
    rewrite decide_True by divlia.
    rewrite decide_True by (unfold continuation; divlia).
    do 2 f_equal. divlia. }
  destruct (decide (0x10000 ≤ c < 0x110000)%Z) as [H4|H4]; [|done].
  intros [= <-]. cbn.
  rewrite decide_False by divlia. rewrite decide_False by divlia.
  rewrite decide_False by divlia. rewrite decide_True by divlia.
  rewrite decide_True by (unfold continuation; divlia).
  do 2 f_equal. divlia.
Qed.

(** A character cut short does not decode. *)
Lemma decode_cut_char c cb k :
  encode_char c = Some cb → (0 < k < length cb)%nat →
  decode_utf8 (take k cb) = None.
Proof.
  unfold encode_char.
  destruct (decide (0 ≤ c < 0x80)%Z) as [H1|H1].
  { intros [= <-]. cbn. lia. }
  destruct (decide (0x80 ≤ c < 0x800)%Z) as [H2|H2].
  { intros [= <-] Hk. cbn in Hk.
    destruct k as [|[|k]]; [lia| |lia]. cbn.
    rewrite decide_False by divlia. by rewrite decide_True by divlia. }
  destruct (decide (0x800 ≤ c < 0xD800 ∨ 0xE000 ≤ c < 0x10000)%Z) as [H3|H3].
  { intros [= <-] Hk. cbn in Hk.
    destruct k as [|[|[|k]]]; [lia| | |lia]; cbn;
      rewrite decide_False by divlia; rewrite decide_False by divlia;
      by rewrite decide_True by divlia. }
  destruct (decide (0x10000 ≤ c < 0x110000)%Z) as [H4|H4]; [|done].
  intros [= <-] Hk. cbn in Hk.
  destruct k as [|[|[|[|k]]]]; [lia| | | |lia]; cbn;
    rewrite decide_False by divlia; rewrite decide_False by divlia;
    rewrite decide_False by divlia; by rewrite decide_True by divlia.
Qed.

Lemma encode_utf8_cons c s b :
  encode_utf8 (c :: s) = Some b ↔
  ∃ cb sb, encode_char c = Some cb ∧ encode_utf8 s = Some sb ∧ b = cb ++ sb.
Proof.
  cbn. destruct (encode_char c) as [cb|]; cbn.
  - destruct (encode_utf8 s) as [sb|]; cbn.
    + split; [intros [= <-]; eauto|]. by intros (? & ? & [= <-] & [= <-] & ->).
    + split; [done|]. by intros (? & ? & _ & ? & _).
  - split; [done|]. by intros (? & ? & ? & _).
Qed.

Lemma encode_utf8_app s1 s2 b1 b2 :
  encode_utf8 s1 = Some b1 → encode_utf8 s2 = Some b2 →
  encode_utf8 (s1 ++ s2) = Some (b1 ++ b2).
Proof.
  revert b1. induction s1 as [|c s1 IH]; intros b1.
  - by intros [= <-] ?.
  - intros (cb & sb & Hc & Hs & ->)%encode_utf8_cons H2.
    cbn [app]. apply encode_utf8_cons. exists cb, (sb ++ b2).
    split_and!; [done|by apply IH|by rewrite app_assoc].
Qed.

Lemma decode_encode_app s sb rest :
  encode_utf8 s = Some sb →
  decode_utf8 (sb ++ rest) = app s <$> decode_utf8 rest.
Proof.
  revert sb. induction s as [|c s IH]; intros sb.
  - intros [= <-]. cbn. by destruct (decode_utf8 rest).
  - intros (cb & sb' & Hc & Hs & ->)%encode_utf8_cons.
    rewrite <-app_assoc, (decode_encode_char c cb _ Hc), (IH sb' Hs).
    by destruct (decode_utf8 rest).
Qed.

Lemma decode_encode_utf8 s sb :
  encode_utf8 s = Some sb → decode_utf8 sb = Some s.
Proof.
  intros Hs. rewrite <-(app_nil_r sb), (decode_encode_app s sb [] Hs).
  cbn. by rewrite app_nil_r.
Qed.

(** Where a byte budget cuts an encoded string: after the longest prefix
    of characters that fits. *)
Lemma encode_utf8_cut s sb budget :
  encode_utf8 s = Some sb → budget < length sb →
  ∃ kept c rest kb cb rb,
    s = kept ++ c :: rest
    ∧ encode_utf8 kept = Some kb ∧ encode_char c = Some cb
    ∧ encode_utf8 rest = Some rb
    ∧ sb = kb ++ cb ++ rb
    ∧ (length kb ≤ budget < length kb + length cb)%nat.
Proof.
  revert sb budget. induction s as [|c s IH]; intros sb budget.
  - intros [= <-]. cbn. lia.
  - intros (cb & sb' & Hc & Hs & ->)%encode_utf8_cons Hlen.
    rewrite length_app in Hlen.
    destruct (decide (budget < length cb)) as [Hfit|Hfit].
    + exists [], c, s, [], cb, sb'. cbn. split_and!; auto with lia.
    + destruct (IH sb' (budget - length cb) Hs) as
        (kept & c' & rest & kb & cb' & rb & -> & Hk & Hc' & Hr & -> & Hb); [lia|].
      exists (c :: kept), c', rest, (cb ++ kb), cb', rb.
      split_and!; [done| |done|done|by rewrite <-app_assoc|..].
      * apply encode_utf8_cons. eauto.
      * rewrite length_app. lia.
      * rewrite length_app. lia.
Qed.

Lemma while_truncated_bytes_found password_bytes n m password decoded :
  (0 < m ≤ n)%nat →
  (∀ k, (m < k ≤ n)%nat → decode_utf8 (take k password_bytes) = None) →
  decode_utf8 (take m password_bytes) = Some decoded →
  while_truncated_bytes password_bytes n password = decoded.
Proof.
  intros Hm. induction n as [|n IH]; [lia|]. intros Hnone Hdec.
  destruct (decide (m = S n)) as [->|Hne].
  - cbn [while_truncated_bytes]. by rewrite Hdec.
  - cbn [while_truncated_bytes]. rewrite Hnone by lia.
    apply IH; [lia| |done]. intros k Hk. apply Hnone. lia.
Qed.

Lemma truncate_password_short (password password_bytes : list Z) :
  encode_utf8 password = Some password_bytes →
  (length password_bytes ≤ 72)%nat →
  truncate_password password = Some password.
Proof.
  intros Henc Hlen. unfold truncate_password. rewrite Henc. cbn.
  by rewrite decide_False by lia.
Qed.

(** A password whose first characters fill the budget to within one
    character is cut after them. *)
Lemma truncate_password_app kept c rest kb cb rb :
  encode_utf8 kept = Some kb → encode_char c = Some cb →
  encode_utf8 rest = Some rb →
  (length kb ≤ 72)%nat → 72 < length kb + length cb →
  truncate_password (kept ++ c :: rest) = Some kept.
Proof.
  intros Hk Hc Hr Hle Hlt.
  pose proof (encode_char_length c cb Hc) as Hcb.
  assert (encode_utf8 (kept ++ c :: rest) = Some (kb ++ cb ++ rb)) as Henc.
  { apply encode_utf8_app; [done|]. apply encode_utf8_cons. eauto. }
  unfold truncate_password. rewrite Henc. cbn.
  rewrite decide_True by (rewrite !length_app; lia). f_equal.
  apply (while_truncated_bytes_found _ 72 (length kb)); [lia|..].
  - intros k Hk'. rewrite take_app_ge by lia.
    rewrite (decode_encode_app kept kb _ Hk).
    rewrite take_app_le by lia.
    by rewrite (decode_cut_char c cb _ Hc) by lia.
  - rewrite take_app_length. by apply decode_encode_utf8.
Qed.

(** X6.  The password that [create_user] hashes and [verify_user]
    checks is the longest prefix, in whole characters, of the password
    given whose UTF-8 encoding fits in 72 bytes: a prefix of the password,
    of at most 72 bytes, such that the next character, if there is one,
    would not fit. *)
Theorem truncate_password_longest_prefix (password hashed : list Z) :
  truncate_password password = Some hashed →
  ∃ dropped hb,
    password = hashed ++ dropped
    ∧ encode_utf8 hashed = Some hb
    ∧ (length hb ≤ 72)%nat
    ∧ ∀ c rest, dropped = c :: rest →
        ∃ cb, encode_char c = Some cb ∧ 72 < length hb + length cb.
Proof.
  unfold truncate_password.
  destruct (encode_utf8 password) as [password_bytes|] eqn:Henc; [|done].
  cbn. case_decide as Hlen.
  - destruct (encode_utf8_cut password password_bytes 72 Henc Hlen)
      as (kept & c & rest & kb & cb & rb & -> & Hk & Hc & Hr & -> & Hb).
    pose proof (truncate_password_app kept c rest kb cb rb Hk Hc Hr) as Hcut.
    unfold truncate_password in Hcut. rewrite Henc in Hcut. cbn in Hcut.
    rewrite decide_True in Hcut by done. rewrite Hcut by lia.
    intros [= <-]. exists (c :: rest), kb. split_and!; [done|done|lia|].
    intros c' rest' [= <- <-]. exists cb. split; [done|lia].
  - intros [= <-]. exists [], password_bytes.
    split_and!; [by rewrite app_nil_r|done|lia|done].
Qed.

Lemma truncate_password_longest_prefix_witness :
  ∃ dropped hb,
    long_password = replicate 71 97%Z ++ dropped
    ∧ encode_utf8 (replicate 71 97%Z) = Some hb
    ∧ (length hb ≤ 72)%nat
    ∧ ∀ c rest, dropped = c :: rest →
        ∃ cb, encode_char c = Some cb ∧ 72 < length hb + length cb.
Proof.
  apply (truncate_password_longest_prefix long_password (replicate 71 97%Z)).
  vm_compute. reflexivity.
Defined.

(** X7.  Of a password of more than 72 bytes at most three bytes short
    of 72 are kept: a character takes at most four bytes.  What is kept
    is cut again to itself. *)
Theorem truncate_password_length (password password_bytes hashed : list Z) :
  encode_utf8 password = Some password_bytes →
  72 < length password_bytes →
  truncate_password password = Some hashed →
  ∃ hb, encode_utf8 hashed = Some hb
        ∧ (69 ≤ length hb)%nat ∧ (length hb ≤ 72)%nat
        ∧ truncate_password hashed = Some hashed.
Proof.
  intros Henc Hlen Hcut.
  destruct (encode_utf8_cut password password_bytes 72 Henc Hlen)
    as (kept & c & rest & kb & cb & rb & -> & Hk & Hc & Hr & -> & Hb).
  rewrite (truncate_password_app kept c rest kb cb rb Hk Hc Hr) in Hcut by lia.
  injection Hcut as <-.
  pose proof (encode_char_length c cb Hc).
  exists kb. split_and!; [done|lia|lia|].
  unfold truncate_password. rewrite Hk. cbn. by rewrite decide_False by lia.
Qed.

Lemma truncate_password_length_witness :
  ∃ hb, encode_utf8 (replicate 71 97%Z) = Some hb
        ∧ (69 ≤ length hb)%nat ∧ (length hb ≤ 72)%nat
        ∧ truncate_password (replicate 71 97%Z) = Some (replicate 71 97%Z).
Proof.
  apply (truncate_password_length long_password
           (replicate 71 97%Z ++ [195; 169; 98]%Z)).
  - vm_compute. reflexivity.
  - vm_compute. lia.
  - vm_compute. reflexivity.
Defined.

(** ** Accounts *)

Section users_properties.

Context (pwd_hash : Z → list Z → string) (pwd_verify : list Z → string → bool).
Context (pgerror : list string → UserRow → string).

Lemma violated_constraints_nil row rows :
  violated_constraints row rows = [] ↔
  (user_pk row ∉ (user_pk <$> rows)) ∧ (username row ∉ (username <$> rows))
  ∧ (email row ∉ (email <$> rows)).
Proof.
  unfold violated_constraints. repeat case_decide; cbn; split; try done; tauto.
Qed.

Lemma user_values_fits (user_id : Z) (name mail hashed : string) (now : Z) :
  user_fits name mail hashed →
  user_values (mkUser user_id name mail hashed now)
  = inr (mkUser user_id name mail hashed now).
Proof.
  intros (Hn & Hm & Hh & Hln & Hlm & Hlh). unfold user_values.
  cbn [username email hashed_password user_pk created_at].
  by rewrite Hn, Hm, Hh, !varchar_fits.
Qed.

(** The row of the values keeps the [id] and the time, and holds the
    three strings as the columns make them. *)
Lemma user_values_inr row row' :
  user_values row = inr row' →
  user_pk row' = user_pk row
  ∧ created_at row' = created_at row
  ∧ varchar 50 (username row) = Some (username row')
  ∧ varchar 100 (email row) = Some (email row')
  ∧ varchar 255 (hashed_password row) = Some (hashed_password row')
  ∧ has_nul (username row) = false.
Proof.
  unfold user_values.
  destruct (has_nul (username row)); [done|].
  destruct (_ || _); [done|].
  destruct (varchar 50 (username row)); [|done].
  destruct (varchar 100 (email row)); [|done].
  destruct (varchar 255 (hashed_password row)); [|done].
  by intros [= <-].
Qed.

(** The three ways [create_user] can go: an exception before the
    statement runs, a violated constraint, a new row. *)
Lemma create_user_cases name mail password salt now db :
  (∃ error,
     create_user pwd_hash pgerror name mail password salt now db
     = (CreateFailed (ErrorOf error), db))
  ∨ (∃ hashed row error,
       truncate_password password = Some hashed
       ∧ user_values (mkUser (users_id_seq db + 1) name mail (pwd_hash salt hashed) now)
         = inr row
       ∧ violated_constraints row (user_rows db) ≠ []
       ∧ create_user pwd_hash pgerror name mail password salt now db
         = (CreateFailed (Text error), mkUsers (user_rows db) (users_id_seq db + 1)))
  ∨ (∃ hashed row,
       truncate_password password = Some hashed
       ∧ user_values (mkUser (users_id_seq db + 1) name mail (pwd_hash salt hashed) now)
         = inr row
       ∧ (users_id_seq db + 1 ≤ 2147483647)%Z
       ∧ violated_constraints row (user_rows db) = []
       ∧ create_user pwd_hash pgerror name mail password salt now db
         = (UserCreated (users_id_seq db + 1) name,
            mkUsers (user_rows db ++ [row]) (users_id_seq db + 1))).
Proof.
  unfold create_user.
  destruct (truncate_password password) as [hashed|]; [|left; by eexists].
  cbn zeta.
  destruct (user_values _) as [e|row] eqn:Hrow; [left; by eexists|].
  case_decide as Hseq; [left; by eexists|]. right.
  destruct (violated_constraints row (user_rows db)) as [|v vs] eqn:Hv.
  - right. exists hashed, row. split_and!; [done..|lia|done|done].
  - left. exists hashed, row.
    destruct (contains "username" _);
      [eexists; split_and!; [done|done|by rewrite Hv|reflexivity]|].
    destruct (contains "email" _);
      eexists; (split_and!; [done|done|by rewrite Hv|reflexivity]).
Qed.

Lemma create_user_all_cons c calls db :
  create_user_all pwd_hash pgerror (c :: calls) db
  = create_user_all pwd_hash pgerror calls
      (create_user pwd_hash pgerror (call_username c) (call_email c)
         (call_password c) (call_salt c) (call_now c) db).2.
Proof. reflexivity. Qed.

Lemma create_user_users_ok name mail password salt now db :
  users_ok db →
  users_ok (create_user pwd_hash pgerror name mail password salt now db).2.
Proof.
  intros (Hn & Hm & Hid & Hseq).
  destruct (create_user_cases name mail password salt now db)
    as [[error ->]|[(hashed & row & error & _ & _ & _ & ->)
                   |(hashed & row & _ & Hrow & _ & Hv & ->)]]; cbn [snd].
  - done.
  - split_and!; [done..|]. cbn. intros u Hu. specialize (Hseq u Hu). lia.
  - apply violated_constraints_nil in Hv as (Hv1 & Hv2 & Hv3).
    apply user_values_inr in Hrow as (Hpk & _). cbn in Hpk.
    unfold users_ok. cbn [user_rows users_id_seq]. rewrite !fmap_app. cbn [fmap list_fmap].
    split_and!.
    + apply NoDup_app. split_and!; [done| |apply NoDup_singleton].
      by intros ? ? ->%list_elem_of_singleton.
    + apply NoDup_app. split_and!; [done| |apply NoDup_singleton].
      by intros ? ? ->%list_elem_of_singleton.
    + apply NoDup_app. split_and!; [done| |apply NoDup_singleton].
      by intros ? ? ->%list_elem_of_singleton.
    + intros u [Hu| ->%list_elem_of_singleton]%elem_of_app; [|lia].
      specialize (Hseq u Hu). lia.
Qed.

(** X8.  Starting from the empty table, after any sequence of
    [create_user] calls no two users share a username, an email or an id,
    whatever the password hash and the wording of the database's
    messages. *)
Theorem create_user_all_unique (calls : list CreateCall) :
  NoDup (username <$> user_rows (create_user_all pwd_hash pgerror calls (mkUsers [] 0)))
  ∧ NoDup (email <$> user_rows (create_user_all pwd_hash pgerror calls (mkUsers [] 0)))
  ∧ NoDup (user_pk <$> user_rows (create_user_all pwd_hash pgerror calls (mkUsers [] 0))).
Proof.
  assert (∀ calls db, users_ok db →
            users_ok (create_user_all pwd_hash pgerror calls db)) as Hinv.
  { clear calls. induction calls as [|c calls IH]; intros db Hdb; [done|].
    rewrite create_user_all_cons. by apply IH, create_user_users_ok. }
  destruct (Hinv calls (mkUsers [] 0)) as (? & ? & ? & _); [|done].
  split_and!; [apply NoDup_nil_2..|]. by intros ? ?%elem_of_nil.
Qed.

(** Rows are only ever added at the end. *)
Lemma create_user_rows name mail password salt now db :
  ∃ more, user_rows (create_user pwd_hash pgerror name mail password salt now db).2
          = user_rows db ++ more.
Proof.
  destruct (create_user_cases name mail password salt now db)
    as [[error ->]|[(hashed & row & error & _ & _ & _ & ->)
                   |(hashed & row & _ & _ & _ & _ & ->)]]; cbn [snd user_rows].
  - exists []. by rewrite app_nil_r.
  - exists []. by rewrite app_nil_r.
  - eauto.
Qed.

Lemma create_user_all_rows calls db :
  ∃ more, user_rows (create_user_all pwd_hash pgerror calls db) = user_rows db ++ more.
Proof.
  revert db. induction calls as [|c calls IH]; intros db.
  - exists []. by rewrite app_nil_r.
  - rewrite create_user_all_cons.
    destruct (IH (create_user pwd_hash pgerror (call_username c) (call_email c)
                    (call_password c) (call_salt c) (call_now c) db).2) as [more ->].
    destruct (create_user_rows (call_username c) (call_email c)
                (call_password c) (call_salt c) (call_now c) db) as [more' ->].
    exists (more' ++ more). by rewrite app_assoc.
Qed.

(** A failure leaves the rows as they were. *)
Lemma create_user_failed_rows name mail password salt now db error :
  (create_user pwd_hash pgerror name mail password salt now db).1 = CreateFailed error →
  user_rows (create_user pwd_hash pgerror name mail password salt now db).2
  = user_rows db.
Proof.
  destruct (create_user_cases name mail password salt now db)
    as [[error' ->]|[(hashed & row & error' & _ & _ & _ & ->)
                    |(hashed & row & _ & _ & _ & _ & ->)]]; cbn [fst snd user_rows];
    done.
Qed.

(** The row of a user just created is the first one under its username,
    whatever rows follow it. *)
Lemma created_user_found
    (name mail : string) (password : list Z) (salt now : Z)
    (db db' : Users) (user_id : Z) (more : list UserRow) :
  create_user pwd_hash pgerror name mail password salt now db
    = (UserCreated user_id name, db') →
  ∃ hashed row i,
    truncate_password password = Some hashed
    ∧ user_values (mkUser user_id name mail (pwd_hash salt hashed) now) = inr row
    ∧ list_find (λ u, username u = username row) (user_rows db' ++ more)
      = Some (i, row).
Proof.
  intros Hcreate.
  destruct (create_user_cases name mail password salt now db)
    as [[error Heq]|[(hashed & row & error & _ & _ & _ & Heq)
                    |(hashed & row & Hcut & Hrow & _ & Hv & Heq)]];
    rewrite Heq in Hcreate; [done..|].
  injection Hcreate as <- <-.
  apply violated_constraints_nil in Hv as (_ & Hname & _).
  exists hashed, row, (0 + length (user_rows db)). split_and!; [done..|].
  cbn [user_rows]. apply list_find_app_l. rewrite list_find_app_r.
  - cbn. by rewrite decide_True.
  - apply list_find_None, Forall_forall. intros u Hu Hun. apply Hname.
    apply list_elem_of_fmap. eauto.
Qed.

(** With strings that fit their columns, that row holds the username,
    the email and the hash as they were given. *)
Lemma created_user_row
    (name mail : string) (password : list Z) (salt now : Z)
    (db db' : Users) (user_id : Z) (more : list UserRow) :
  (∀ hashed, truncate_password password = Some hashed →
             (String.length (pwd_hash salt hashed) ≤ 255)%nat) →
  (String.length name ≤ 50)%nat →
  (String.length mail ≤ 100)%nat →
  create_user pwd_hash pgerror name mail password salt now db
    = (UserCreated user_id name, db') →
  ∃ hashed i,
    truncate_password password = Some hashed
    ∧ has_nul name = false
    ∧ list_find (λ u, username u = name) (user_rows db' ++ more)
      = Some (i, mkUser user_id name mail (pwd_hash salt hashed) now).
Proof.
  intros Hhash Hname Hmail Hcreate.
  destruct (created_user_found name mail password salt now db db' user_id more Hcreate)
    as (hashed & row & i & Hcut & Hrow & Hfind).
  apply user_values_inr in Hrow as (Hpk & Hnow & Hn & Hm & Hh & Hnul).
  cbn in Hpk, Hnow, Hn, Hm, Hh, Hnul.
  rewrite varchar_fits in Hn, Hm, Hh by auto.
  injection Hn as Hn. injection Hm as Hm. injection Hh as Hh.
  exists hashed, i. split_and!; [done..|].
  rewrite <-Hn in Hfind. rewrite Hfind. do 2 f_equal.
  destruct row; cbn in *; congruence.
Qed.

(** Once a username is registered, no later call registers it again. *)
Lemma created_user_taken
    (name mail : string) (password : list Z) (salt now : Z)
    (db db' : Users) (user_id : Z) (calls : list CreateCall)
    (mail' : string) (password' : list Z) (salt' now' : Z) :
  create_user pwd_hash pgerror name mail password salt now db
    = (UserCreated user_id name, db') →
  ∃ error,
    (create_user pwd_hash pgerror name mail' password' salt' now'
       (create_user_all pwd_hash pgerror calls db')).1 = CreateFailed error.
Proof.
  intros Hcreate.
  destruct (create_user_all_rows calls db') as [more Hrows].
  destruct (created_user_found name mail password salt now db db' user_id more Hcreate)
    as (hashed & row & i & _ & Hrow & Hfind).
  apply user_values_inr in Hrow as (_ & _ & Hname & _). cbn in Hname.
  apply list_find_Some in Hfind as (Hi & _ & _).
  apply list_elem_of_lookup_2 in Hi. rewrite <-Hrows in Hi.
  destruct (create_user_cases name mail' password' salt' now'
              (create_user_all pwd_hash pgerror calls db'))
    as [[error ->]|[(hashed' & row' & error & _ & _ & _ & ->)
                   |(hashed' & row' & _ & Hrow' & _ & Hv & _)]];
    [by eexists..|].
  apply user_values_inr in Hrow' as (_ & _ & Hname' & _). cbn in Hname'.
  apply violated_constraints_nil in Hv as (_ & Hfree & _). destruct Hfree.
  apply list_elem_of_fmap. exists row. split; [congruence|done].
Qed.

(** X9.  If the hash verifies the passwords it hashed and the hash of
    the password fits its column, then once [create_user] has succeeded
    for a username of at most 50 characters and an email of at most 100,
    [verify_user] with the same username and password succeeds and
    returns the id, username and email of the user created, right away
    and after any number of further [create_user] calls. *)
Theorem create_user_then_verify_user
    (name mail : string) (password : list Z) (salt now : Z)
    (db db' : Users) (user_id : Z) (calls : list CreateCall) :
  (∀ salt p, pwd_verify p (pwd_hash salt p) = true) →
  (∀ hashed, truncate_password password = Some hashed →
             (String.length (pwd_hash salt hashed) ≤ 255)%nat) →
  (String.length name ≤ 50)%nat →
  (String.length mail ≤ 100)%nat →
  create_user pwd_hash pgerror name mail password salt now db
    = (UserCreated user_id name, db') →
  verify_user pwd_verify name password (create_user_all pwd_hash pgerror calls db')
    = LoginOk user_id name mail.
Proof.
  intros Hverify Hhash Hname Hmail Hcreate.
  destruct (create_user_all_rows calls db') as [more Hrows].
  destruct (created_user_row name mail password salt now db db' user_id more
              Hhash Hname Hmail Hcreate) as (hashed & i & Hcut & Hnul & Hfind).
  unfold verify_user. rewrite Hnul, Hrows, Hfind. cbn.
  by rewrite Hcut, Hverify.
Qed.

End users_properties.

Lemma create_user_then_verify_user_witness :
  verify_user sample_verify "alice" [112; 119]%Z
    (create_user_all sample_hash sample_pgerror [alice]
       (create_user sample_hash sample_pgerror
          "alice" "alice@example.org" [112; 119]%Z 5 100 (mkUsers [] 0)).2)
  = LoginOk 1 "alice" "alice@example.org".
Proof.
  apply (create_user_then_verify_user sample_hash sample_verify sample_pgerror
           "alice" "alice@example.org" [112; 119]%Z 5 100 (mkUsers [] 0)).
  - intros salt p. apply bool_decide_eq_true_2. reflexivity.
  - intros hashed [= <-]. cbn. lia.
  - cbn. lia.
  - cbn. lia.
  - reflexivity.
Defined.

(** A username that does not go into its column is refused; one with
    spaces past the width of the column is registered without them, and
    is then not found under the name it was given. *)
Example username_too_long_refused :
  create_user sample_hash sample_pgerror (Scenario.fifty +:+ "x") "x@example.org"
    [112; 119]%Z 5 100 (mkUsers [] 0)
  = (CreateFailed (ErrorOf (ExecuteError DataError)), mkUsers [] 0).
Proof. reflexivity. Qed.

Example username_cut_then_not_found :
  (create_user sample_hash sample_pgerror (Scenario.fifty +:+ " ") "s@example.org"
     [112; 119]%Z 5 100 (mkUsers [] 0)).1
  = UserCreated 1 (Scenario.fifty +:+ " ")
  ∧ verify_user sample_verify (Scenario.fifty +:+ " ") [112; 119]%Z
      (create_user sample_hash sample_pgerror (Scenario.fifty +:+ " ") "s@example.org"
         [112; 119]%Z 5 100 (mkUsers [] 0)).2
    = LoginFailed (Text "Invalid credentials").
Proof. split; reflexivity. Qed.

Section users_outcomes.

Context (pwd_hash : Z → list Z → string) (pwd_verify : list Z → string → bool).
Context (pgerror : list string → UserRow → string).

(** X10.  On a table that satisfies its constraints and whose sequence
    has values left, with a username, an email and a hash that fit their
    columns, [create_user] succeeds when the password can be encoded and
    neither the username nor the email is taken: it then adds one row,
    with the next value of the sequence as id, the hash of the cut
    password and the current time.  It fails when the password cannot be
    encoded, when a username of at most 50 characters or an email of at
    most 100 is taken, and when the username or the email does not go
    into its column.  Every failure leaves the rows as they were. *)
Theorem create_user_outcome
    (name mail : string) (password : list Z) (salt now : Z) (db : Users) :
  users_ok db →
  (∀ hashed,
     truncate_password password = Some hashed →
     user_fits name mail (pwd_hash salt hashed) →
     (users_id_seq db < 2147483647)%Z →
     (name ∉ (username <$> user_rows db)) → (mail ∉ (email <$> user_rows db)) →
     create_user pwd_hash pgerror name mail password salt now db
     = (UserCreated (users_id_seq db + 1) name,
        mkUsers (user_rows db
                 ++ [mkUser (users_id_seq db + 1) name mail (pwd_hash salt hashed) now])
                (users_id_seq db + 1)))
  ∧ (truncate_password password = None
     ∨ ((String.length name ≤ 50)%nat ∧ name ∈ (username <$> user_rows db))
     ∨ ((String.length mail ≤ 100)%nat ∧ mail ∈ (email <$> user_rows db))
     ∨ varchar 50 name = None ∨ varchar 100 mail = None →
     ∃ error,
       (create_user pwd_hash pgerror name mail password salt now db).1
         = CreateFailed error)
  ∧ (∀ error,
       (create_user pwd_hash pgerror name mail password salt now db).1
         = CreateFailed error →
       user_rows (create_user pwd_hash pgerror name mail password salt now db).2
         = user_rows db).
Proof.
  intros (_ & _ & _ & Hseq).
  assert ((users_id_seq db + 1)%Z ∉ (user_pk <$> user_rows db)) as Hpk.
  { intros (u & Hu & Hin)%list_elem_of_fmap. specialize (Hseq u Hin). lia. }
  split_and!; [| |apply create_user_failed_rows].
  - intros hashed Hcut Hfits Hmax Hname Hmail. unfold create_user.
    rewrite Hcut. cbn zeta. rewrite user_values_fits by done.
    rewrite decide_False by lia.
    assert (violated_constraints
              (mkUser (users_id_seq db + 1) name mail (pwd_hash salt hashed) now)
              (user_rows db) = []) as -> by (by apply violated_constraints_nil).
    done.
  - intros Hwhy.
    destruct (create_user_cases pwd_hash pgerror name mail password salt now db)
      as [[error ->]|[(hashed & row & error & _ & _ & _ & ->)
                     |(hashed & row & Hcut & Hrow & _ & Hv & _)]];
      [by eexists..|].
    apply user_values_inr in Hrow as (_ & _ & Hn & Hm & _). cbn in Hn, Hm.
    apply violated_constraints_nil in Hv as (_ & Hname & Hmail).
    destruct Hwhy as [Hnone|[[Hlen Hin]|[[Hlen Hin]|[Hlong|Hlong]]]].
    + congruence.
    + rewrite varchar_fits in Hn by done. injection Hn as Hn. by rewrite <-Hn in Hname.
    + rewrite varchar_fits in Hm by done. injection Hm as Hm. by rewrite <-Hm in Hmail.
    + congruence.
    + congruence.
Qed.

(** X11.  If the database's message for a violated constraint names
    that constraint, then on a table that satisfies its constraints and
    whose sequence has values left, with a username, an email and a hash
    that fit their columns, a taken username (with a free email) is
    reported as "Username already exists", and a taken email (with a free
    username) as "Email already exists" unless the message holds the word
    "username", in which case it is reported as "Username already
    exists"; the third text is given for neither. *)
Theorem create_user_error_text
    (name mail : string) (password hashed : list Z) (salt now : Z) (db : Users) :
  (∀ row, contains "username" (pgerror ["users_username_key"] row) = true) →
  (∀ row, contains "email" (pgerror ["users_email_key"] row) = true) →
  users_ok db →
  truncate_password password = Some hashed →
  user_fits name mail (pwd_hash salt hashed) →
  (users_id_seq db < 2147483647)%Z →
  (name ∈ (username <$> user_rows db) → (mail ∉ (email <$> user_rows db)) →
     (create_user pwd_hash pgerror name mail password salt now db).1
     = CreateFailed (Text "Username already exists"))
  ∧ ((name ∉ (username <$> user_rows db)) → mail ∈ (email <$> user_rows db) →
     (create_user pwd_hash pgerror name mail password salt now db).1
     = CreateFailed
         (Text (if contains "username"
                     (pgerror ["users_email_key"]
                        (mkUser (users_id_seq db + 1) name mail
                           (pwd_hash salt hashed) now))
                then "Username already exists"
                else "Email already exists"))).
Proof.
  intros Hu He (_ & _ & _ & Hseq) Hcut Hfits Hmax.
  assert ((users_id_seq db + 1)%Z ∉ (user_pk <$> user_rows db)) as Hpk.
  { intros (u & Hu' & Hin)%list_elem_of_fmap. specialize (Hseq u Hin). lia. }
  unfold create_user. rewrite Hcut. cbn zeta. rewrite user_values_fits by done.
  rewrite decide_False by lia. unfold violated_constraints.
  cbn [user_pk username email]. rewrite (decide_False _ _ Hpk).
  split; intros Hname Hmail.
  - rewrite (decide_True _ _ Hname), (decide_False _ _ Hmail). cbn [app fst].
    by rewrite Hu.
  - rewrite (decide_False _ _ Hname), (decide_True _ _ Hmail). cbn [app fst].
    rewrite He. by destruct (contains "username" _).
Qed.

(** Past a prefix of exactly 72 bytes nothing of a password is kept. *)
Lemma truncate_password_72 p pb s sb :
  encode_utf8 p = Some pb → length pb = 72 → encode_utf8 s = Some sb →
  truncate_password (p ++ s) = Some p.
Proof.
  intros Hp Hlen Hs. destruct s as [|c rest].
  - rewrite app_nil_r. apply (truncate_password_short p pb Hp). lia.
  - apply encode_utf8_cons in Hs as (cb & rb & Hc & Hr & ->).
    pose proof (encode_char_length c cb Hc).
    apply (truncate_password_app p c rest pb cb rb); auto with lia.
Qed.


End users_outcomes.

Lemma create_user_outcome_witness :
  create_user sample_hash sample_pgerror
    "alice" "alice@example.org" [112; 119]%Z 5 100 (mkUsers [] 0)
  = (UserCreated 1 "alice",
     mkUsers [mkUser 1 "alice" "alice@example.org" (sample_hash 5 [112; 119]%Z) 100] 1)
  ∧ (∃ error,
       (create_user sample_hash sample_pgerror
          "alice" "a@example.org" [112; 119]%Z 6 200
          (mkUsers [mkUser 1 "alice" "alice@example.org" "pw" 100] 1)).1
       = CreateFailed error)
  ∧ user_rows (create_user sample_hash sample_pgerror
                 "alice" "a@example.org" [112; 119]%Z 6 200
                 (mkUsers [mkUser 1 "alice" "alice@example.org" "pw" 100] 1)).2
    = [mkUser 1 "alice" "alice@example.org" "pw" 100].
Proof.
  assert (users_ok (mkUsers [] 0)) as Hempty.
  { unfold users_ok. cbn. split_and!; [apply NoDup_nil_2..|].
    intros u Hu. by apply elem_of_nil in Hu. }
  assert (users_ok (mkUsers [mkUser 1 "alice" "alice@example.org" "pw" 100] 1))
    as Halice.
  { unfold users_ok. cbn. split_and!; [apply NoDup_singleton..|].
    intros u ->%list_elem_of_singleton. cbn. lia. }
  destruct (create_user_outcome sample_hash sample_pgerror
              "alice" "alice@example.org" [112; 119]%Z 5 100 (mkUsers [] 0) Hempty)
    as (Hnew & _ & _).
  destruct (create_user_outcome sample_hash sample_pgerror
              "alice" "a@example.org" [112; 119]%Z 6 200
              (mkUsers [mkUser 1 "alice" "alice@example.org" "pw" 100] 1) Halice)
    as (_ & Hfail & Hrows).
  assert (∃ error,
            (create_user sample_hash sample_pgerror
               "alice" "a@example.org" [112; 119]%Z 6 200
               (mkUsers [mkUser 1 "alice" "alice@example.org" "pw" 100] 1)).1
            = CreateFailed error) as Hfailed.
  { apply Hfail. right; left. split; [cbn; lia|]. cbn. apply list_elem_of_here. }
  split_and!.
  - apply (Hnew [112; 119]%Z).
    + reflexivity.
    + fits.
    + cbn. lia.
    + cbn. apply not_elem_of_nil.
    + cbn. apply not_elem_of_nil.
  - exact Hfailed.
  - destruct Hfailed as [error Herror]. exact (Hrows error Herror).
Defined.

Lemma create_user_error_text_witness :
  (create_user sample_hash sample_pgerror
     "alice" "a@example.org" [112; 119]%Z 6 200
     (mkUsers [mkUser 1 "alice" "alice@example.org" "pw" 100] 1)).1
  = CreateFailed (Text "Username already exists").
Proof.
  refine (proj1 (create_user_error_text sample_hash sample_pgerror
                   "alice" "a@example.org" [112; 119]%Z [112; 119]%Z 6 200
                   (mkUsers [mkUser 1 "alice" "alice@example.org" "pw" 100] 1)
                   _ _ _ _ _ _) _ _).
  - intros row. reflexivity.
  - intros row. reflexivity.
  - unfold users_ok. cbn. split_and!; [apply NoDup_singleton..|].
    intros u ->%list_elem_of_singleton. cbn. lia.
  - reflexivity.
  - fits.
  - cbn. lia.
  - cbn. apply list_elem_of_here.
  - cbn. intros [=]%list_elem_of_singleton.
Defined.


(** ** The endpoints *)

(** X13.  [get_problem_details] never answers 404: whatever goes wrong
    is answered with status 500, and a problem without a test-case file
    gets 500 with the "Problem not found" exception, raised inside the
    [try] block, as the cause. *)
Theorem get_problem_details_never_404 (problem_id : string) (test_cases : TestCases) :
  (∀ status_code detail,
     get_problem_details problem_id test_cases = HTTPException status_code detail →
     status_code = 500%Z)
  ∧ (test_cases !! (problem_id +:+ ".json") = None →
     get_problem_details problem_id test_cases
     = HTTPException 500
         (DetailErrorLoadingProblem (RaisedHTTPException 404 "Problem not found"))).
Proof.
  unfold get_problem_details. split.
  - intros status_code detail.
    destruct (load_problem problem_id test_cases); [done|]. by intros [= <- _].
  - intros Hnone. unfold load_problem. by rewrite Hnone.
Qed.

Lemma get_problem_details_never_404_witness :
  get_problem_details "nope" sample_test_cases
  = HTTPException 500
      (DetailErrorLoadingProblem (RaisedHTTPException 404 "Problem not found")).
Proof.
  apply (proj2 (get_problem_details_never_404 "nope" sample_test_cases)).
  reflexivity.
Defined.

Lemma contains_cons needle a rest :
  contains needle (String a rest)
  = String.prefix needle (String a rest) || contains needle rest.
Proof. reflexivity. Qed.

Lemma replace_from_0 old new a rest :
  replace_from old new 0 (String a rest)
  = if String.prefix old (String a rest)
    then new +:+ replace_from old new (String.length old - 1) rest
    else String a (replace_from old new 0 rest).
Proof. reflexivity. Qed.

Lemma endswith_unfold s suffix :
  endswith s suffix
  = String.eqb s suffix
    || match s with
       | EmptyString => false
       | String _ rest => endswith rest suffix
       end.
Proof. by destruct s. Qed.

Lemma endswith_app p s : endswith (p +:+ s) s = true.
Proof.
  induction p as [|a p IH].
  - change ("" +:+ s) with s. by rewrite endswith_unfold, String.eqb_refl.
  - change (String a p +:+ s) with (String a (p +:+ s)).
    rewrite endswith_unfold, IH. apply orb_true_r.
Qed.

Lemma prefix_cons a s1 b s2 :
  String.prefix (String a s1) (String b s2)
  = if Ascii.ascii_dec a b then String.prefix s1 s2 else false.
Proof. reflexivity. Qed.

Lemma prefix_empty s : String.prefix "" s = true.
Proof. by destruct s. Qed.

Lemma append_cons a s t : String a s +:+ t = String a (s +:+ t).
Proof. reflexivity. Qed.

Lemma append_empty t : "" +:+ t = t.
Proof. reflexivity. Qed.

Ltac ascii_cases :=
  repeat match goal with
         | |- context [Ascii.ascii_dec ?a ?b] =>
             destruct (Ascii.ascii_dec a b); try subst; try done
         end.

(** No occurrence of ".json" starts in a name free of it and ends in the
    suffix ".json" added to it. *)
Lemma prefix_json_app a q :
  String.prefix ".json" (String a q) = false →
  String.prefix ".json" (String a q +:+ ".json") = false.
Proof.
  destruct q as [|a2 [|a3 [|a4 [|a5 q]]]];
    rewrite ?append_cons, ?append_empty, ?prefix_cons; ascii_cases;
    by rewrite ?prefix_empty.
Qed.

Lemma str_replace_json_suffix p :
  contains ".json" p = false → str_replace (p +:+ ".json") ".json" "" = p.
Proof.
  unfold str_replace. induction p as [|a p IH]; [done|].
  rewrite contains_cons. intros [Hpre Hrest]%orb_false_iff.
  change (String a p +:+ ".json") with (String a (p +:+ ".json")).
  rewrite replace_from_0.
  change (String a (p +:+ ".json")) with (String a p +:+ ".json").
  rewrite (prefix_json_app a p Hpre). f_equal. by apply IH.
Qed.



Section endpoints_properties.

Context (pwd_hash : Z → list Z → string) (pwd_verify : list Z → string → bool).
Context (pgerror : list string → UserRow → string).
Context {Report : Type}.
Context (grade_submission : list Z → string → string → SubmissionEntry * Report).

(** X15.  A [submit_code] request that is answered with an exception
    (404 for a problem without test cases, 500 for a database failure)
    leaves the submissions as they were.  When it is answered with a
    body, on a table with one row per pair, both parts of the body carry
    the server's time as timestamp, and [get_leaderboard] then lists the
    graded user (the entry's [user_id] as the column stores it, which is
    that [user_id] when it has at most 50 characters) with an entry that
    the graded entry does not beat. *)
Theorem submit_code_effect
    (submission : Submission) (now : Z) (test_cases : TestCases) (db : Table) :
  (∀ status_code detail,
     (submit_code grade_submission submission now test_cases db).1
       = HTTPException status_code detail →
     (submit_code grade_submission submission now test_cases db).2 = db)
  ∧ (∀ grade entry,
       unique_user_problem db →
       (submit_code grade_submission submission now test_cases db).1
         = Ok (grade, entry) →
       grade.1 = entry
       ∧ entry_timestamp entry = now
       ∧ ∃ kept q,
           get_leaderboard (submit_code grade_submission submission now test_cases db).2
             = Ok (dict <$> kept)
           ∧ q ∈ kept
           ∧ varchar 50 (entry_user_id entry) = Some (q_user_id q)
           ∧ ((String.length (entry_user_id entry) ≤ 50)%nat →
              q_user_id q = entry_user_id entry)
           ∧ ((entry_score entry < q_score q)%Z
              ∨ (q_score q = entry_score entry ∧ (q_timestamp q ≤ now)%Z))).
Proof.
  unfold submit_code.
  destruct (test_cases !! _) as [file|]; [|by split].
  cbn zeta.
  set (e := mkEntry _ _ _ _ _ now _).
  destruct (save_submission e db) as [result db'] eqn:Hsave.
  pose proof (f_equal fst Hsave) as Hres. pose proof (f_equal snd Hsave) as Hdb.
  cbn in Hres, Hdb. destruct result as [|error]; cbn [fst snd]; split; try done.
  - intros grade entry Hnd [= <- <-]. split_and!; [done..|].
    destruct (save_submission_then_stored e db Hres) as (new & r & Hv & Hs & _ & Hnb).
    apply stored_key in Hs as [Hk Hr]. rewrite Hdb in Hr.
    apply submission_values_user in Hv.
    destruct (stored_row_on_leaderboard db' r) as (kept & q & Hlb & Hq & Hu & Hord);
      [|done|].
    { rewrite <-Hdb. by apply save_submission_unique_user_problem. }
    assert (varchar 50 (entry_user_id e) = Some (q_user_id q)) as Huser.
    { rewrite Hu. injection Hk as -> _. exact Hv. }
    exists kept, q. unfold get_leaderboard. rewrite Hlb.
    split_and!; [done..| |].
    + intros Hlen. rewrite varchar_fits in Huser by done. by injection Huser.
    + revert Hord Hnb. unfold order_by, score_desc_timestamp_asc, strictly_better.
      cbn. lia.
  - intros _ _ _. by rewrite (save_submission_failure e db error Hres) in Hdb.
Qed.

(** X16.  If the hash verifies the passwords it hashed: once [signup]
    has answered with a body, then right away and after any number of
    further [create_user] calls, every further [signup] with that
    username is answered with status 400, and (for a username of at most
    50 characters, an email of at most 100 and a hash that fits its
    column) [login] with the same username and password answers with the
    body of the same user. *)
Theorem signup_then_login
    (request again : SignupRequest) (salt now salt' now' : Z)
    (db db' : Users) (body : CreateResult) (calls : list CreateCall) :
  (∀ salt p, pwd_verify p (pwd_hash salt p) = true) →
  signup pwd_hash pgerror request salt now db = (Ok body, db') →
  signup_username again = signup_username request →
  (∃ user_id,
     body = UserCreated user_id (signup_username request)
     ∧ ((∀ hashed, truncate_password (signup_password request) = Some hashed →
                   (String.length (pwd_hash salt hashed) ≤ 255)%nat) →
        (String.length (signup_username request) ≤ 50)%nat →
        (String.length (signup_email request) ≤ 100)%nat →
        login pwd_verify
          (mkLogin (signup_username request) (signup_password request))
          (create_user_all pwd_hash pgerror calls db')
        = Ok (LoginOk user_id (signup_username request) (signup_email request))))
  ∧ ∃ detail,
      (signup pwd_hash pgerror again salt' now'
         (create_user_all pwd_hash pgerror calls db')).1
      = HTTPException 400 detail.
Proof.
  intros Hverify Hsignup Hsame. unfold signup in Hsignup.
  destruct (create_user pwd_hash pgerror (signup_username request)
              (signup_email request) (signup_password request) salt now db)
    as [[user_id name|error] db0] eqn:Hcreate; [|done].
  injection Hsignup as <- <-.
  assert (name = signup_username request) as ->.
  { destruct (create_user_cases pwd_hash pgerror (signup_username request)
                (signup_email request) (signup_password request) salt now db)
      as [[error Heq]|[(hashed & row & error & _ & _ & _ & Heq)
                      |(hashed & row & _ & _ & _ & _ & Heq)]];
      rewrite Heq in Hcreate; by simplify_eq. }
  split.
  - exists user_id. split; [done|]. intros Hhash Hname Hmail.
    destruct (create_user_all_rows pwd_hash pgerror calls db0) as [more Hrows].
    destruct (created_user_row pwd_hash pgerror _ _ _ _ _ _ _ _ more
                Hhash Hname Hmail Hcreate) as (hashed & i & Hcut & Hnul & Hfind).
    unfold login, verify_user. cbn [login_username login_password].
    rewrite Hnul, Hrows, Hfind. cbn. by rewrite Hcut, Hverify.
  - unfold signup. rewrite Hsame.
    destruct (created_user_taken pwd_hash pgerror _ _ _ _ _ _ _ _ calls
                (signup_email again) (signup_password again) salt' now' Hcreate)
      as [error Herror].
    destruct (create_user _ _ _ _ _ _ _ (create_user_all _ _ _ _))
      as [[user_id' name'|error'] db1]; [done|]. by eexists.
Qed.

End endpoints_properties.

Lemma submit_code_effect_witness :
  (submit_code sample_grader (mkSubmission "u1" "nope" []) 42
     sample_test_cases [excluded Scenario.a1]).2 = [excluded Scenario.a1]
  ∧ ∃ kept q,
      get_leaderboard
        (submit_code sample_grader (mkSubmission "u1" "two_sum" []) 42
           sample_test_cases []).2 = Ok (dict <$> kept)
      ∧ q ∈ kept
      ∧ q_user_id q = "u1"
      ∧ ((75 < q_score q)%Z ∨ (q_score q = 75%Z ∧ (q_timestamp q ≤ 42)%Z)).
Proof.
  split.
  - eapply (proj1 (submit_code_effect sample_grader (mkSubmission "u1" "nope" []) 42
                     sample_test_cases [excluded Scenario.a1])).
    reflexivity.
  - destruct (proj2 (submit_code_effect sample_grader
                       (mkSubmission "u1" "two_sum" []) 42 sample_test_cases [])
                    _ _ NoDup_nil_2 eq_refl) as (_ & _ & kept & q & Hlb & Hq & _ & Hu & Hord).
    exists kept, q. split_and!; [exact Hlb|exact Hq| |exact Hord].
    apply Hu. cbn. lia.
Defined.

Lemma signup_then_login_witness :
  login sample_verify (mkLogin "alice" [112; 119]%Z)
    (create_user_all sample_hash sample_pgerror
       [mkCall "bob" "bob@example.org" [120]%Z 7 300]
       (mkUsers [mkUser 1 "alice" "alice@example.org"
                   (sample_hash 5 [112; 119]%Z) 100] 1))
  = Ok (LoginOk 1 "alice" "alice@example.org")
  ∧ ∃ detail,
      (signup sample_hash sample_pgerror
         (mkSignup "alice" "other@example.org" [120]%Z) 6 200
         (create_user_all sample_hash sample_pgerror
            [mkCall "bob" "bob@example.org" [120]%Z 7 300]
            (mkUsers [mkUser 1 "alice" "alice@example.org"
                        (sample_hash 5 [112; 119]%Z) 100] 1))).1
      = HTTPException 400 detail.
Proof.
  destruct (signup_then_login sample_hash sample_verify sample_pgerror
              (mkSignup "alice" "alice@example.org" [112; 119]%Z)
              (mkSignup "alice" "other@example.org" [120]%Z) 5 100 6 200
              (mkUsers [] 0)
              (mkUsers [mkUser 1 "alice" "alice@example.org"
                          (sample_hash 5 [112; 119]%Z) 100] 1)
              (UserCreated 1 "alice")
              [mkCall "bob" "bob@example.org" [120]%Z 7 300])
    as [(user_id & Hbody & Hlogin) Hagain].
  - intros salt p. apply bool_decide_eq_true_2. reflexivity.
  - reflexivity.
  - reflexivity.
  - split; [|exact Hagain]. injection Hbody as <-. apply Hlogin.
    + intros hashed [= <-]. cbn. lia.
    + cbn. lia.
    + cbn. lia.
Defined.
